(** * multi-timer: a shallow embedding of src/main.go

    Go's [int] and [time.Duration] are 64-bit signed integers; they are
    modelled as [Z] with the two's-complement wrap-around written out
    ([wrap64]).  A [time.Duration] counts nanoseconds.  Indexing a slice
    out of range panics in Go; the embedding returns [None] there. *)

From Stdlib Require Import String Ascii.
From Stdlib Require Import ZArith Lia List Bool.
From Stdlib Require Import Decimal DecimalString DecimalN.
Import ListNotations.
Open Scope Z_scope.

(** ** Machine integers and durations *)

Definition int64_min : Z := - 2 ^ 63.
Definition int64_max : Z := 2 ^ 63 - 1.

Definition in_int64 (z : Z) : bool := (int64_min <=? z) && (z <=? int64_max).

(** Two's-complement wrap-around of a mathematical integer into int64. *)
Definition wrap64 (z : Z) : Z := (z + 2 ^ 63) mod 2 ^ 64 - 2 ^ 63.

(** [time.Second] and [time.Minute], in nanoseconds. *)
Definition Second : Z := 1000000000.
Definition Minute : Z := 60 * Second.

(** [s[i]] on a Go slice: [None] is the index-out-of-range panic. *)
Definition index {A} (l : list A) (i : Z) : option A :=
  if (0 <=? i) && (i <? Z.of_nat (length l)) then nth_error l (Z.to_nat i)
  else None.

(** [s[i] = x] on a Go slice, for an index known to be in range. *)
Fixpoint list_set {A} (l : list A) (i : nat) (x : A) : list A :=
  match l, i with
  | [], _ => []
  | _ :: l', O => x :: l'
  | y :: l', S i' => y :: list_set l' i' x
  end.

(** [append(s[:i], s[i+1:]...)]: removes the element at position [i]. *)
Definition remove_at {A} (l : list A) (i : nat) : list A :=
  firstn i l ++ skipn (S i) l.

(** ** Data model (lines 16-42) *)

Record TimerPhase := mkPhase {
  WorkDuration : Z;
  BreakDuration : Z
}.

Record TimerState := mkState {
  isWork : bool;
  currentTime : Z;
  cycles : Z;
  currentPhase : Z;
  name : string;
  notifText : string
}.

Record Timer := mkTimer {
  state : TimerState;
  phases : list TimerPhase;
  maxCycles : Z;  (* -1 for unlimited *)
  isPaused : bool
}.

Record TimerConfig := mkConfig {
  Name : string;
  NotifText : string;
  Phases : list TimerPhase;
  MaxCycles : Z
}.

(** A notification [notify(title, message)]: fire-and-forget, so the
    embedding records it in the output of the step that emits it. *)
Definition Notification : Type := (string * string)%type.

(** Field assignments on a state and on a timer. *)
Definition set_isWork (b : bool) (s : TimerState) : TimerState :=
  mkState b (currentTime s) (cycles s) (currentPhase s) (name s) (notifText s).
Definition set_currentTime (d : Z) (s : TimerState) : TimerState :=
  mkState (isWork s) d (cycles s) (currentPhase s) (name s) (notifText s).
Definition set_cycles (c : Z) (s : TimerState) : TimerState :=
  mkState (isWork s) (currentTime s) c (currentPhase s) (name s) (notifText s).
Definition set_currentPhase (p : Z) (s : TimerState) : TimerState :=
  mkState (isWork s) (currentTime s) (cycles s) p (name s) (notifText s).

Definition with_state (t : Timer) (s : TimerState) : Timer :=
  mkTimer s (phases t) (maxCycles t) (isPaused t).
Definition set_isPaused (b : bool) (t : Timer) : Timer :=
  mkTimer (state t) (phases t) (maxCycles t) b.

(** ** [func (t *Timer) update() bool] (lines 123-152)

    Result: [None] when the slice indexing panics; otherwise the mutated
    timer, the returned boolean ("completed") and the notifications sent. *)
Definition update (t : Timer) : option (Timer * bool * list Notification) :=
  let st := state t in
  if isPaused t then Some (t, false, [])
  else if currentTime st <=? 0 then
    match index (phases t) (currentPhase st) with
    | None => None
    | Some cur =>
      if isWork st then
        let st1 := set_currentTime (BreakDuration cur) (set_isWork false st) in
        Some (with_state t st1, false,
              [(name st, ("Break: " ++ notifText st)%string)])
      else
        let st1 := set_cycles (wrap64 (cycles st + 1)) st in
        (* the Working switch of lines 144-146 *)
        let to_work (s : TimerState) :=
          match index (phases t) (currentPhase s) with
          | None => None
          | Some ph =>
            Some (with_state t (set_currentTime (WorkDuration ph) (set_isWork true s)),
                  false, [(name s, notifText s)])
          end in
        if negb (maxCycles t =? -1) && (cycles st1 >? maxCycles t) then
          let st2 := set_currentPhase (wrap64 (currentPhase st1 + 1)) st1 in
          if currentPhase st2 >=? Z.of_nat (length (phases t)) then
            Some (with_state t st2, true,
                  [(name st2, ("All phases completed: " ++ notifText st2)%string)])
          else to_work (set_cycles 1 st2)
        else to_work st1
    end
  else Some (with_state t (set_currentTime (wrap64 (currentTime st - Second)) st),
             false, []).

(** ** The manager (lines 78-91) *)

(** [displayChan] is [make(chan bool, 1)]; only its number of buffered
    values matters, kept in [displayChan]. *)
Record TimerManager := mkManager {
  activeTimers : list Timer;
  configs : list TimerConfig;
  displayChan : nat
}.

Definition displayChan_cap : nat := 1.

Definition NewTimerManager : TimerManager := mkManager [] [] 0.

(** [select { case tm.displayChan <- true: default: }] *)
Definition try_send (n : nat) : nat :=
  if Nat.ltb n displayChan_cap then S n else n.

(** The display goroutine receiving one value: [for range tm.displayChan]. *)
Definition receive (m : TimerManager) : option TimerManager :=
  match displayChan m with
  | O => None
  | S n => Some (mkManager (activeTimers m) (configs m) n)
  end.

(** The body of [for i := len(tm.activeTimers) - 1; i >= 0; i--]
    (lines 161-169), run for the indices [i-1, ..., 0]. Timers are held
    by pointer and each appears once, so the mutated timer is written
    back in its slot. *)
Fixpoint tick_loop (i : nat) (ts : list Timer) (needsDisplay : bool)
  : option (list Timer * bool) :=
  match i with
  | O => Some (ts, needsDisplay)
  | S i' =>
    match nth_error ts i' with
    | None => None
    | Some t =>
      match update t with
      | None => None
      | Some (t', completed, _) =>
        let ts' := if completed then remove_at ts i' else list_set ts i' t' in
        tick_loop i' ts' true
      end
    end
  end.

(** One firing of the ticker in [startUpdateLoop] (lines 157-180). *)
Definition tick (m : TimerManager) : option TimerManager :=
  match tick_loop (length (activeTimers m)) (activeTimers m) false with
  | None => None
  | Some (ts, needsDisplay) =>
    Some (mkManager ts (configs m)
            (if needsDisplay then try_send (displayChan m) else displayChan m))
  end.

(** Command [p <num>] (lines 410-419). *)
Definition togglePause (num : Z) (m : TimerManager) : TimerManager :=
  if (0 <? num) && (num <=? Z.of_nat (length (activeTimers m))) then
    let i := Z.to_nat (num - 1) in
    match nth_error (activeTimers m) i with
    | Some t =>
      mkManager (list_set (activeTimers m) i (set_isPaused (negb (isPaused t)) t))
                (configs m) (displayChan m)
    | None => m
    end
  else m.

(** Command [r <num>] (lines 421-430); [None] is the panic of
    [phases[0]] on a timer without phases. *)
Definition reset (num : Z) (m : TimerManager) : option TimerManager :=
  if (0 <? num) && (num <=? Z.of_nat (length (activeTimers m))) then
    let i := Z.to_nat (num - 1) in
    match nth_error (activeTimers m) i with
    | Some t =>
      match index (phases t) 0 with
      | Some ph0 =>
        Some (mkManager
                (list_set (activeTimers m) i
                   (with_state t (set_currentTime (WorkDuration ph0) (state t))))
                (configs m) (displayChan m))
      | None => None
      end
    | None => None
    end
  else Some m.

(** Command [d <num>] (lines 432-445); the save that follows is
    [saveTimerConfigs (configs m)] on the result. [None] is the panic of
    [tm.configs[num:]] when [configs] is shorter than [num]. *)
Definition delete (num : Z) (m : TimerManager) : option TimerManager :=
  if (0 <? num) && (num <=? Z.of_nat (length (activeTimers m))) then
    let i := Z.to_nat (num - 1) in
    if Nat.leb (S i) (length (configs m)) then
      Some (mkManager (remove_at (activeTimers m) i) (remove_at (configs m) i)
              (displayChan m))
    else None
  else Some m.

(** ** [strconv.Atoi] on a 64-bit platform

    An optional sign ['+'] or ['-'], then one or more decimal digits and
    nothing else (base 10 admits no underscores), with a value in the int64
    range; anything else is an error. *)
Definition digits_value (s : string) : option Z :=
  match NilZero.uint_of_string s with
  | Some d => Some (Z.of_N (N.of_uint d))
  | None => None
  end.

Definition Atoi (s : string) : option Z :=
  let '(sign, rest) :=
    match s with
    | String "-" r => (-1, r)
    | String "+" r => (1, r)
    | _ => (1, s)
    end%char in
  match digits_value rest with
  | Some v => if in_int64 (sign * v) then Some (sign * v) else None
  | None => None
  end.

(** ** [strings] helpers on byte strings *)

(** [strings.Contains(s, ":")] *)
Fixpoint contains_colon (s : string) : bool :=
  match s with
  | EmptyString => false
  | String c r => Ascii.eqb c ":" || contains_colon r
  end.

(** [strings.Split(s, ":")] *)
Fixpoint split_colon (s : string) : list string :=
  match s with
  | EmptyString => [EmptyString]
  | String c r =>
    let parts := split_colon r in
    if Ascii.eqb c ":" then EmptyString :: parts
    else match parts with
         | p :: ps => String c p :: ps
         | [] => [String c EmptyString]
         end
  end.

(** [strings.TrimSpace] on the ASCII white space of Go's [asciiSpace]
    table; the non-ASCII Unicode spaces it also trims are not modelled. *)
Definition is_ascii_space (c : ascii) : bool :=
  match nat_of_ascii c with
  | 9 | 10 | 11 | 12 | 13 | 32 => true
  | _ => false
  end%nat.

Fixpoint trim_left (s : string) : string :=
  match s with
  | String c r => if is_ascii_space c then trim_left r else s
  | EmptyString => EmptyString
  end.

Fixpoint rev_string (s : string) (acc : string) : string :=
  match s with
  | EmptyString => acc
  | String c r => rev_string r (String c acc)
  end.

Definition TrimSpace (s : string) : string :=
  rev_string (trim_left (rev_string (trim_left s) EmptyString)) EmptyString.

(** ** [func parseDuration(input string) (time.Duration, error)] (lines 208-227) *)

Inductive ParseError :=
| ErrInvalidFormat   (* "invalid format, use MM:SS" *)
| ErrInvalidNumbers  (* "invalid numbers" *)
| ErrAtoi.           (* the error of strconv.Atoi *)

(** Lines 210-226, on the string after [strings.TrimSpace]. *)
Definition parseDuration_trimmed (input : string) : Z + ParseError :=
  if contains_colon input then
    match split_colon input with
    | [p0; p1] =>
      match Atoi p0, Atoi p1 with
      | Some minutes, Some seconds =>
        inl (wrap64 (wrap64 (minutes * Minute) + wrap64 (seconds * Second)))
      | _, _ => inr ErrInvalidNumbers
      end
    | _ => inr ErrInvalidFormat
    end
  else
    match Atoi input with
    | Some minutes => inl (wrap64 (minutes * Minute))
    | None => inr ErrAtoi
    end.

Definition parseDuration (input : string) : Z + ParseError :=
  parseDuration_trimmed (TrimSpace input).

(** ** Building timers (lines 271-351) *)

(** [readLine] on standard input given as its remaining lines (without
    their newline); at the end of the stream it returns the empty string. *)
Definition readLine (input : list string) : string * list string :=
  match input with
  | [] => (EmptyString, [])
  | l :: rest => (TrimSpace l, rest)
  end.

(** [strings.ToLower(s) != "y"] is false exactly for ["y"] and ["Y"]. *)
Definition lower_is_y (s : string) : bool :=
  String.eqb s "y" || String.eqb s "Y".

(** The phase loop of [createTimer] (lines 277-302). It may read past the
    end of the stream forever, so it runs on [fuel]; [None] means the fuel
    ran out. *)
Fixpoint phase_loop (fuel : nat) (ps : list TimerPhase) (input : list string)
  : option (list TimerPhase * list string) :=
  match fuel with
  | O => None
  | S fuel' =>
    let '(workStr, in1) := readLine input in
    match parseDuration workStr with
    | inr _ => phase_loop fuel' ps in1
    | inl workDur =>
      let '(breakStr, in2) := readLine in1 in
      match parseDuration breakStr with
      | inr _ => phase_loop fuel' ps in2
      | inl breakDur =>
        let ps' := ps ++ [mkPhase workDur breakDur] in
        let '(answer, in3) := readLine in2 in
        if lower_is_y answer then phase_loop fuel' ps' in3 else Some (ps', in3)
      end
    end
  end.

(** The new timer for a program (lines 320-332, and 338-350). *)
Definition new_timer (nm nt : string) (ps : list TimerPhase) (mc : Z)
  : option Timer :=
  match index ps 0 with
  | None => None
  | Some ph0 =>
    Some (mkTimer (mkState true (WorkDuration ph0) 1 0 nm nt) ps mc false)
  end.

(** [func createTimer()]: the new timer, its config and the rest of the input. *)
Definition createTimer (fuel : nat) (input : list string)
  : option (Timer * TimerConfig * list string) :=
  let '(nm, in1) := readLine input in
  let '(nt, in2) := readLine in1 in
  match phase_loop fuel [] in2 with
  | None => None
  | Some (ps, in3) =>
    let '(cycleType, in4) := readLine in3 in
    let maxc :=
      if String.eqb cycleType "u" then -1
      else match Atoi cycleType with
           | Some c => if 0 <? c then c else -1
           | None => -1
           end in
    match new_timer nm nt ps maxc with
    | None => None
    | Some t => Some (t, mkConfig nm nt ps maxc, in4)
    end
  end.

(** [func timerFromConfig(config TimerConfig) *Timer] *)
Definition timerFromConfig (c : TimerConfig) : option Timer :=
  new_timer (Name c) (NotifText c) (Phases c) (MaxCycles c).

(** ** Observations used by the statements *)

(** [n] successive calls of [t.update()] on the same timer: the final
    timer, the values returned and the notifications sent. *)
Fixpoint run_updates (n : nat) (t : Timer)
  : option (Timer * list bool * list Notification) :=
  match n with
  | O => Some (t, [], [])
  | S n' =>
    match update t with
    | None => None
    | Some (t1, b, ns) =>
      match run_updates n' t1 with
      | None => None
      | Some (t2, bs, ns') => Some (t2, b :: bs, ns ++ ns')
      end
    end
  end.

(** The state a freshly built timer starts in, for its first phase [ph0]. *)
Definition initial_state (t : Timer) (ph0 : TimerPhase) : Prop :=
  isWork (state t) = true /\ currentTime (state t) = WorkDuration ph0 /\
  cycles (state t) = 1 /\ currentPhase (state t) = 0 /\ isPaused t = false.

(** The single-phase timer of the unlimited-cycles example: work 2s,
    break 1s, Working with 2s left in cycle [c]. *)
Definition example_timer (nm nt : string) (c : Z) : Timer :=
  mkTimer (mkState true (2 * Second) c 0 nm nt)
          [mkPhase (2 * Second) Second] (-1) false.

(** [n] successive firings of the ticker with no other goroutine in
    between. *)
Fixpoint run_ticks (n : nat) (m : TimerManager) : option TimerManager :=
  match n with
  | O => Some m
  | S n' => match tick m with
            | None => None
            | Some m1 => run_ticks n' m1
            end
  end.

(** The startup of [main] (lines 357-370) once [loadTimerConfigs] has
    returned [cs]: one timer per config, in order; [None] is the panic of
    [config.Phases[0]] on a config without phases. *)
Fixpoint load_timers (cs : list TimerConfig) : option (list Timer) :=
  match cs with
  | [] => Some []
  | c :: cs' =>
    match timerFromConfig c, load_timers cs' with
    | Some t, Some ts => Some (t :: ts)
    | _, _ => None
    end
  end.

(** A Go slice holds at most [maxInt] elements. *)
Definition slice_len_ok {A} (l : list A) : Prop := Z.of_nat (length l) <= int64_max.

(** The steps of the program after startup, each under the manager lock:
    a tick, the commands [p], [r], [d] and [a] of the command loop, and
    the display goroutine taking one redraw request. *)
Inductive mstep : TimerManager -> TimerManager -> Prop :=
| step_tick m m' : tick m = Some m' -> mstep m m'
| step_pause m num : mstep m (togglePause num m)
| step_reset m m' num : reset num m = Some m' -> mstep m m'
| step_delete m m' num : delete num m = Some m' -> mstep m m'
| step_add m fuel input t c input' :
    createTimer fuel input = Some (t, c, input') -> slice_len_ok (phases t) ->
    mstep m (mkManager (activeTimers m ++ [t]) (configs m ++ [c]) (displayChan m))
| step_render m m' : receive m = Some m' -> mstep m m'.

(** The managers the program can be in: after startup on some loaded
    config list, then any number of steps. *)
Inductive reachable : TimerManager -> Prop :=
| reach_start cs ts :
    load_timers cs = Some ts -> Forall (fun c => slice_len_ok (Phases c)) cs ->
    reachable (mkManager ts cs 0)
| reach_step m m' : reachable m -> mstep m m' -> reachable m'.

(** The phase-index invariant of a timer: [0 <= currentPhase < len(phases)]. *)
Definition phase_ok (t : Timer) : Prop :=
  0 <= currentPhase (state t) < Z.of_nat (length (phases t)) /\
  slice_len_ok (phases t).

(** ** Persistence: [saveTimerConfigs] / [loadTimerConfigs] (lines 44-66, 184-206)

    The file holds the JSON text written by [json.NewEncoder(file).Encode]
    and read back by [json.NewDecoder(file).Decode]. The embedding works on
    the JSON values that text denotes: a [JString] holds the bytes the
    decoder produces for the string literal, a [JNumber] the digits of the
    number literal. Quoting, escaping and white space are undone by the
    decoder and are not modelled; the one change the encoder makes to a
    string, replacing each byte that does not start a valid UTF-8 sequence
    by U+FFFD, is. *)

#[warnings="-register-all"]
Inductive json :=
| JNull
| JBool (b : bool)
| JNumber (lit : string)
| JString (s : string)
| JArray (elems : list json)
| JObject (fields : list (string * json)).

(** The size of the UTF-8 sequence at the head of [s], as
    [utf8.DecodeRuneInString] accepts it (no overlong forms, no surrogates,
    nothing above U+10FFFF); [None] when it returns [(RuneError, 1)]. *)
Definition byte_in (c : ascii) (lo hi : nat) : bool :=
  Nat.leb lo (nat_of_ascii c) && Nat.leb (nat_of_ascii c) hi.

Definition rune_len (s : string) : option nat :=
  match s with
  | EmptyString => None
  | String b0 r =>
    let n0 := nat_of_ascii b0 in
    if Nat.ltb n0 128 then Some 1%nat
    else
      let '(size, lo, hi) :=
        if Nat.leb 194 n0 && Nat.leb n0 223 then (2, 128, 191)
        else if Nat.eqb n0 224 then (3, 160, 191)
        else if Nat.leb 225 n0 && Nat.leb n0 236 then (3, 128, 191)
        else if Nat.eqb n0 237 then (3, 128, 159)
        else if Nat.leb 238 n0 && Nat.leb n0 239 then (3, 128, 191)
        else if Nat.eqb n0 240 then (4, 144, 191)
        else if Nat.leb 241 n0 && Nat.leb n0 243 then (4, 128, 191)
        else if Nat.eqb n0 244 then (4, 128, 143)
        else (0, 0, 0) in
      match size, r with
      | 2, String b1 _ =>
        if byte_in b1 lo hi then Some 2%nat else None
      | 3, String b1 (String b2 _) =>
        if byte_in b1 lo hi && byte_in b2 128 191 then Some 3%nat else None
      | 4, String b1 (String b2 (String b3 _)) =>
        if byte_in b1 lo hi && byte_in b2 128 191 && byte_in b3 128 191
        then Some 4%nat else None
      | _, _ => None
      end
  end%nat.

Fixpoint str_take (n : nat) (s : string) : string :=
  match n, s with
  | O, _ | _, EmptyString => EmptyString
  | S n', String c r => String c (str_take n' r)
  end.

Fixpoint str_drop (n : nat) (s : string) : string :=
  match n, s with
  | O, _ => s
  | _, EmptyString => EmptyString
  | S n', String c r => str_drop n' r
  end.

(** U+FFFD in UTF-8. *)
Definition replacement_char : string :=
  String (ascii_of_nat 239) (String (ascii_of_nat 191) (String (ascii_of_nat 189) EmptyString)).

(** The string content [encodeState.string] writes: valid sequences are
    kept, each other byte becomes U+FFFD. *)
Fixpoint utf8_coerce_fuel (fuel : nat) (s : string) : string :=
  match fuel with
  | O => EmptyString
  | S fuel' =>
    match s with
    | EmptyString => EmptyString
    | String _ r =>
      match rune_len s with
      | Some k => (str_take k s ++ utf8_coerce_fuel fuel' (str_drop k s))%string
      | None => (replacement_char ++ utf8_coerce_fuel fuel' r)%string
      end
    end
  end.

Definition utf8_coerce (s : string) : string := utf8_coerce_fuel (String.length s) s.

(** [utf8.ValidString] *)
Fixpoint utf8_valid_fuel (fuel : nat) (s : string) : bool :=
  match fuel with
  | O => true
  | S fuel' =>
    match s with
    | EmptyString => true
    | String _ _ =>
      match rune_len s with
      | Some k => utf8_valid_fuel fuel' (str_drop k s)
      | None => false
      end
    end
  end.

Definition utf8_valid (s : string) : bool := utf8_valid_fuel (String.length s) s.

(** [strconv.AppendInt(nil, z, 10)]: the shortest decimal form. *)
Definition string_of_Z (z : Z) : string :=
  if z <? 0 then String "-" (NilZero.string_of_uint (N.to_uint (Z.to_N (- z))))
  else NilZero.string_of_uint (N.to_uint (Z.to_N z)).

(** Encoding. [TimerPhase.MarshalJSON] writes the two durations as int64
    nanosecond counts; a [TimerConfig] is written field by field in
    declaration order. *)
Definition encode_int (z : Z) : json := JNumber (string_of_Z z).
Definition encode_string (s : string) : json := JString (utf8_coerce s).

Definition TimerPhase_MarshalJSON (p : TimerPhase) : json :=
  JObject [("WorkDuration"%string, encode_int (WorkDuration p));
           ("BreakDuration"%string, encode_int (BreakDuration p))].

Definition encode_config (c : TimerConfig) : json :=
  JObject [("Name"%string, encode_string (Name c));
           ("NotifText"%string, encode_string (NotifText c));
           ("Phases"%string, JArray (map TimerPhase_MarshalJSON (Phases c)));
           ("MaxCycles"%string, encode_int (MaxCycles c))].

(** [saveTimerConfigs configs], as the value written to [timers.json]. *)
Definition saveTimerConfigs (cs : list TimerConfig) : json :=
  JArray (map encode_config cs).

(** Decoding. An int64 or int field takes a number literal through
    [strconv.ParseInt(lit, 10, 64)] (the same acceptance as [Atoi]); a
    string field takes a string, and [null] leaves a field as it is; any
    other value is an error. Object keys are matched to the field names
    exactly (the decoder's case-insensitive fallback is not modelled);
    unknown keys are skipped. *)
Definition decode_int (j : json) (old : Z) : option Z :=
  match j with
  | JNumber lit => Atoi lit
  | JNull => Some old
  | _ => None
  end.

Definition decode_string (j : json) (old : string) : option string :=
  match j with
  | JString s => Some s
  | JNull => Some old
  | _ => None
  end.

Fixpoint mapM {A B} (f : A -> option B) (l : list A) : option (list B) :=
  match l with
  | [] => Some []
  | x :: l' =>
    match f x, mapM f l' with
    | Some y, Some ys => Some (y :: ys)
    | _, _ => None
    end
  end.

(** [TimerPhase.UnmarshalJSON]: decode into [aux] (both fields 0), then
    copy. *)
Fixpoint decode_phase_fields (fs : list (string * json)) (w b : Z) : option TimerPhase :=
  match fs with
  | [] => Some (mkPhase w b)
  | (k, v) :: fs' =>
    if String.eqb k "WorkDuration"%string then
      match decode_int v w with Some w' => decode_phase_fields fs' w' b | None => None end
    else if String.eqb k "BreakDuration"%string then
      match decode_int v b with Some b' => decode_phase_fields fs' w b' | None => None end
    else decode_phase_fields fs' w b
  end.

Definition TimerPhase_UnmarshalJSON (j : json) : option TimerPhase :=
  match j with
  | JObject fs => decode_phase_fields fs 0 0
  | _ => None
  end.

Definition decode_phases (j : json) (old : list TimerPhase) : option (list TimerPhase) :=
  match j with
  | JArray elems => mapM TimerPhase_UnmarshalJSON elems
  | JNull => Some []
  | _ => None
  end.

Fixpoint decode_config_fields (fs : list (string * json)) (c : TimerConfig)
  : option TimerConfig :=
  match fs with
  | [] => Some c
  | (k, v) :: fs' =>
    let c' :=
      if String.eqb k "Name"%string then
        option_map (fun x => mkConfig x (NotifText c) (Phases c) (MaxCycles c))
                   (decode_string v (Name c))
      else if String.eqb k "NotifText"%string then
        option_map (fun x => mkConfig (Name c) x (Phases c) (MaxCycles c))
                   (decode_string v (NotifText c))
      else if String.eqb k "Phases"%string then
        option_map (fun x => mkConfig (Name c) (NotifText c) x (MaxCycles c))
                   (decode_phases v (Phases c))
      else if String.eqb k "MaxCycles"%string then
        option_map (fun x => mkConfig (Name c) (NotifText c) (Phases c) x)
                   (decode_int v (MaxCycles c))
      else Some c in
    match c' with
    | Some c'' => decode_config_fields fs' c''
    | None => None
    end
  end.

Definition decode_config (j : json) : option TimerConfig :=
  match j with
  | JObject fs => decode_config_fields fs (mkConfig EmptyString EmptyString [] 0)
  | _ => None
  end.

(** [loadTimerConfigs] on an existing file holding [j]; [None] is a
    returned error. *)
Definition loadTimerConfigs (j : json) : option (list TimerConfig) :=
  match j with
  | JArray elems => mapM decode_config elems
  | JNull => Some []
  | _ => None
  end.

(** The values a [TimerConfig] can hold: its integers are 64-bit. *)
Definition config_wf (c : TimerConfig) : Prop :=
  in_int64 (MaxCycles c) = true /\
  Forall (fun p => in_int64 (WorkDuration p) = true /\ in_int64 (BreakDuration p) = true)
         (Phases c).

(** A config with its strings as they come back from the file. *)
Definition coerce_config (c : TimerConfig) : TimerConfig :=
  mkConfig (utf8_coerce (Name c)) (utf8_coerce (NotifText c)) (Phases c) (MaxCycles c).

(** ** The tick loop read as building the retained list

    Each timer is updated once, in list order; the timers that report
    completion are dropped and the others kept in their order. [None] is a
    panic of one of the updates. *)
Fixpoint tick_retained (ts : list Timer) : option (list Timer) :=
  match ts with
  | [] => Some []
  | t :: ts' =>
    match update t, tick_retained ts' with
    | Some (t', completed, _), Some r => Some (if completed then r else t' :: r)
    | _, _ => None
    end
  end.

(** A remaining time that is a whole, non-negative number of seconds. *)
Definition secs_ok (d : Z) : Prop := 0 <= d <= int64_max /\ d mod Second = 0.

(** ** The command loop of [main] (lines 386-453) *)

(** [utf8.DecodeRuneInString] as the scanner's [getRune] uses it: the
    rune and its size; [(RuneError, 1)] on an invalid sequence; [None] at
    the end of the input. *)
Definition decode_rune (s : string) : option (Z * nat) :=
  match s with
  | EmptyString => None
  | String b0 r =>
    let v (c : ascii) := Z.of_nat (nat_of_ascii c) in
    match rune_len s, r with
    | Some 1%nat, _ => Some (v b0, 1%nat)
    | Some 2%nat, String b1 _ =>
      Some (Z.lor (Z.shiftl (Z.land (v b0) 31) 6) (Z.land (v b1) 63), 2%nat)
    | Some 3%nat, String b1 (String b2 _) =>
      Some (Z.lor (Z.lor (Z.shiftl (Z.land (v b0) 15) 12) (Z.shiftl (Z.land (v b1) 63) 6))
                  (Z.land (v b2) 63), 3%nat)
    | Some 4%nat, String b1 (String b2 (String b3 _)) =>
      Some (Z.lor (Z.lor (Z.lor (Z.shiftl (Z.land (v b0) 7) 18) (Z.shiftl (Z.land (v b1) 63) 12))
                         (Z.shiftl (Z.land (v b2) 63) 6)) (Z.land (v b3) 63), 4%nat)
    | _, _ => Some (65533, 1%nat)
    end
  end.

(** [isSpace] of package [fmt] (its [space] table). *)
Definition fmt_isSpace (r : Z) : bool :=
  ((9 <=? r) && (r <=? 13)) || (r =? 32) || (r =? 133) || (r =? 160) ||
  (r =? 5760) || ((8192 <=? r) && (r <=? 8202)) || (r =? 8232) || (r =? 8233) ||
  (r =? 8239) || (r =? 8287) || (r =? 12288).

(** [for isSpace(inputc) && inputc != '\n' { inputc = s.getRune() }] *)
Fixpoint skip_spaces (fuel : nat) (s : string) : string :=
  match fuel with
  | O => s
  | S fuel' =>
    match decode_rune s with
    | Some (r, k) => if fmt_isSpace r && negb (r =? 10) then skip_spaces fuel' (str_drop k s) else s
    | None => s
    end
  end.

Definition is_digit (c : ascii) : bool :=
  Nat.leb 48 (nat_of_ascii c) && Nat.leb (nat_of_ascii c) 57.

(** [s.scanNumber(decimalDigits, false)]: the longest prefix of digits. *)
Fixpoint take_digits (s : string) : string :=
  match s with
  | String c r => if is_digit c then String c (take_digits r) else EmptyString
  | EmptyString => EmptyString
  end.

(** [ss.scanInt('d', 64)] once the spaces are consumed: [SkipSpace] fails
    on a newline, [notEOF] on the end of input; then an optional sign, at
    least one digit, and [strconv.ParseInt(tok, 10, 64)]. *)
Definition scan_int (s : string) : option Z :=
  match s with
  | EmptyString => None
  | String c rest =>
    if Ascii.eqb c (ascii_of_nat 10) then None
    else
      let '(sign, body) :=
        if Ascii.eqb c "+" || Ascii.eqb c "-" then (String c EmptyString, rest)
        else (EmptyString, s) in
      match take_digits body with
      | EmptyString => None
      | ds => Atoi (sign ++ ds)
      end
  end%char.

(** [fmt.Sscanf(command, "<letter> %d", &num)]: [Some n] when [n] is
    stored, [None] when scanning fails (and [num] keeps its value 0). The
    literal must match the first rune; the space of the format needs one or
    more spaces (not newlines) or the end of input; text after the number
    is ignored. *)
Definition Sscanf_index (letter : ascii) (command : string) : option Z :=
  match command with
  | EmptyString => None
  | String c r =>
    if Ascii.eqb c letter then
      match decode_rune r with
      | None => None
      | Some (x, _) =>
        if fmt_isSpace x && negb (x =? 10) then scan_int (skip_spaces (String.length r) r)
        else None
      end
    else None
  end.

Definition command_index (letter : ascii) (command : string) : Z :=
  match Sscanf_index letter command with
  | Some n => n
  | None => 0
  end.

(** [strings.ToLower(command[0:1])] compared with one-letter commands: a
    non-ASCII byte becomes U+FFFD and matches none of them. *)
Definition command_key (c : ascii) : option ascii :=
  let n := nat_of_ascii c in
  if Nat.ltb n 128 then
    Some (if Nat.leb 65 n && Nat.leb n 90 then ascii_of_nat (n + 32) else c)
  else None.

Inductive cmd_result :=
| CQuit (m : TimerManager)
| CNext (m : TimerManager) (input : list string)
| CPanic
| COutOfFuel.

(** One iteration of the command loop on the trimmed line [command]; the
    saves and redraws it also does are output only. The [a] command reads
    its answers from the same line-by-line input. *)
Definition handle_command (fuel : nat) (command : string) (input : list string)
    (m : TimerManager) : cmd_result :=
  match command with
  | EmptyString => CNext m input
  | String c _ =>
    match command_key c with
    | Some k =>
      if Ascii.eqb k "a" then
        match createTimer fuel input with
        | Some (t, cfg, rest) =>
          CNext (mkManager (activeTimers m ++ [t]) (configs m ++ [cfg]) (displayChan m)) rest
        | None => COutOfFuel
        end
      else if Ascii.eqb k "p" then CNext (togglePause (command_index "p" command) m) input
      else if Ascii.eqb k "r" then
        match reset (command_index "r" command) m with
        | Some m' => CNext m' input
        | None => CPanic
        end
      else if Ascii.eqb k "d" then
        match delete (command_index "d" command) m with
        | Some m' => CNext m' input
        | None => CPanic
        end
      else if Ascii.eqb k "q" then CQuit m
      else CNext m input
    | None => CNext m input
    end
  end%char.

Inductive loop_result :=
| LQuit (m : TimerManager)
| LPanic
| LOutOfFuel.

(** [for { command, _ := reader.ReadString('\n'); ... }] on standard input
    given line by line, for at most [fuel] iterations. *)
Fixpoint main_loop (fuel : nat) (input : list string) (m : TimerManager) : loop_result :=
  match fuel with
  | O => LOutOfFuel
  | S fuel' =>
    let '(command, rest) := readLine input in
    match handle_command fuel' command rest m with
    | CQuit m' => LQuit m'
    | CNext m' rest' => main_loop fuel' rest' m'
    | CPanic => LPanic
    | COutOfFuel => LOutOfFuel
    end
  end.

(** * Proofs *)

(** ** Arithmetic of the wrap-around *)

Lemma wrap64_small (z : Z) : int64_min <= z <= int64_max -> wrap64 z = z.
Proof.
  unfold wrap64, int64_min, int64_max; intros H.
  rewrite Z.mod_small; lia.
Qed.

(** ** One step of [update] in each branch *)

Section UpdateSteps.
Variable t : Timer.
Hypothesis Hrun : isPaused t = false.

Lemma update_countdown :
  0 < currentTime (state t) ->
  update t = Some (with_state t (set_currentTime
                     (wrap64 (currentTime (state t) - Second)) (state t)),
                   false, []).
Proof.
  intros Hpos; unfold update; rewrite Hrun.
  destruct (Z.leb_spec (currentTime (state t)) 0); [lia | reflexivity].
Qed.

Lemma update_to_break (cur : TimerPhase) :
  currentTime (state t) <= 0 -> isWork (state t) = true ->
  index (phases t) (currentPhase (state t)) = Some cur ->
  update t = Some (with_state t (set_currentTime (BreakDuration cur)
                                   (set_isWork false (state t))), false,
                   [(name (state t), ("Break: " ++ notifText (state t))%string)]).
Proof.
  intros Hz Hw Hi; unfold update; rewrite Hrun, Hi, Hw.
  destruct (Z.leb_spec (currentTime (state t)) 0); [reflexivity | lia].
Qed.

Lemma update_to_work_same_phase (cur : TimerPhase) :
  currentTime (state t) <= 0 -> isWork (state t) = false ->
  index (phases t) (currentPhase (state t)) = Some cur ->
  (maxCycles t = -1 \/ wrap64 (cycles (state t) + 1) <= maxCycles t) ->
  update t = Some (with_state t (set_currentTime (WorkDuration cur)
                     (set_isWork true (set_cycles (wrap64 (cycles (state t) + 1))
                                         (state t)))), false,
                   [(name (state t), notifText (state t))]).
Proof.
  intros Hz Hw Hi Hm; unfold update; rewrite Hrun, Hi, Hw.
  destruct (Z.leb_spec (currentTime (state t)) 0); [|lia]. cbn [set_cycles currentPhase cycles].
  destruct Hm as [Hm | Hm].
  - rewrite Hm; cbn; rewrite Hi; reflexivity.
  - destruct (Z.eqb (maxCycles t) (-1)); cbn;
      [|destruct (Z.gtb_spec (wrap64 (cycles (state t) + 1)) (maxCycles t)); [lia|]];
      cbn; rewrite Hi; reflexivity.
Qed.
End UpdateSteps.

(** ** C1 *)

(** C1 (as stated, refuted): two calls of [update] on the example timer do
    not reach the break: the timer is still Working, with 0s left. *)
Lemma C1_counterexample :
  ~ (forall r, run_updates 2 (example_timer "a" "n" 1) = Some r ->
       isWork (state (fst (fst r))) = false /\
       currentTime (state (fst (fst r))) = Second).
Proof.
  intros H.
  destruct (H _ eq_refl) as [Hw _].
  vm_compute in Hw. discriminate.
Qed.

(** C1 (amended): from Working with 2s left, three calls of [update]
    (2s to 1s, 1s to 0s, then the switch) put the timer OnBreak with 1s
    left, and two more calls (1s to 0s, then the switch) put it back to
    Working in the next cycle with 2s left; no call reports completion. *)
Theorem C1_amended (nm nt : string) (c : Z) :
  1 <= c < int64_max ->
  run_updates 3 (example_timer nm nt c) =
    Some (mkTimer (mkState false Second c 0 nm nt)
                  [mkPhase (2 * Second) Second] (-1) false,
          [false; false; false], [(nm, ("Break: " ++ nt)%string)]) /\
  run_updates 2 (mkTimer (mkState false Second c 0 nm nt)
                   [mkPhase (2 * Second) Second] (-1) false) =
    Some (mkTimer (mkState true (2 * Second) (c + 1) 0 nm nt)
                  [mkPhase (2 * Second) Second] (-1) false,
          [false; false], [(nm, nt)]).
Proof.
  intros Hc. split.
  - cbn [run_updates].
    rewrite update_countdown by (reflexivity || (cbn; lia)).
    rewrite update_countdown by (reflexivity || (cbn; rewrite wrap64_small; cbv; [lia|discriminate|discriminate])).
    rewrite update_to_break with (cur := mkPhase (2 * Second) Second);
      try reflexivity; cbn; rewrite ?wrap64_small; cbv; try lia; try discriminate.
  - cbn [run_updates].
    rewrite update_countdown by (reflexivity || (cbn; lia)).
    cbn [with_state set_currentTime state currentTime isWork cycles currentPhase
         name notifText phases maxCycles isPaused].
    change (wrap64 (Second - Second)) with 0.
    rewrite update_to_work_same_phase with (cur := mkPhase (2 * Second) Second)
      by (reflexivity || (cbn; lia) || (left; reflexivity)).
    cbn [with_state set_currentTime set_isWork set_cycles state currentTime isWork
         cycles currentPhase name notifText phases maxCycles isPaused
         WorkDuration run_updates app].
    rewrite wrap64_small by (unfold int64_min, int64_max in *; lia).
    reflexivity.
Qed.

(** ** Slice removal and assignment *)

Lemma remove_at_length {A} (l : list A) (i : nat) :
  (i < length l)%nat -> length (remove_at l i) = (length l - 1)%nat.
Proof.
  intros H; unfold remove_at. rewrite length_app, length_skipn, firstn_length_le; lia.
Qed.

Lemma remove_at_before {A} (l : list A) (i j : nat) :
  (j < i)%nat -> (i < length l)%nat -> nth_error (remove_at l i) j = nth_error l j.
Proof.
  intros Hj Hi; unfold remove_at.
  rewrite nth_error_app1 by (rewrite firstn_length_le; lia).
  rewrite nth_error_firstn. destruct (Nat.ltb_spec j i); [reflexivity | lia].
Qed.

Lemma remove_at_after {A} (l : list A) (i j : nat) :
  (i <= j)%nat -> (i < length l)%nat -> nth_error (remove_at l i) j = nth_error l (S j).
Proof.
  intros Hj Hi; unfold remove_at.
  rewrite nth_error_app2 by (rewrite firstn_length_le; lia).
  rewrite firstn_length_le, nth_error_skipn by lia. f_equal; lia.
Qed.

Lemma remove_at_last {A} (l : list A) (x : A) : remove_at (l ++ [x]) (length l) = l.
Proof.
  unfold remove_at. rewrite firstn_app, Nat.sub_diag, firstn_all.
  cbn [firstn]. rewrite app_nil_r.
  rewrite skipn_all2 by (rewrite length_app; cbn; lia). apply app_nil_r.
Qed.

Lemma list_set_length {A} (l : list A) (i : nat) (x : A) :
  length (list_set l i x) = length l.
Proof. revert i; induction l as [|y l IH]; intros [|i]; cbn; auto. Qed.

Lemma list_set_same {A} (l : list A) (i : nat) (x : A) :
  (i < length l)%nat -> nth_error (list_set l i x) i = Some x.
Proof.
  revert i; induction l as [|y l IH]; intros [|i] H; cbn in *; try lia; auto.
  apply IH; lia.
Qed.

Lemma list_set_other {A} (l : list A) (i j : nat) (x : A) :
  i <> j -> nth_error (list_set l i x) j = nth_error l j.
Proof.
  revert i j; induction l as [|y l IH]; intros [|i] [|j] H; cbn; auto; congruence.
Qed.

Lemma firstn_S_nth {A} (l : list A) (i : nat) (x : A) :
  nth_error l i = Some x -> firstn (S i) l = firstn i l ++ [x].
Proof.
  revert i; induction l as [|y l IH]; intros [|i] H; cbn in *; try discriminate.
  - injection H as ->. reflexivity.
  - rewrite (IH i H). reflexivity.
Qed.

Lemma firstn_list_set {A} (l : list A) (i : nat) (x : A) :
  firstn i (list_set l i x) = firstn i l.
Proof.
  revert i; induction l as [|y l IH]; intros [|i]; cbn; auto. rewrite IH; reflexivity.
Qed.

Lemma skipn_list_set {A} (l : list A) (i : nat) (x : A) :
  (i < length l)%nat -> skipn i (list_set l i x) = x :: skipn (S i) l.
Proof.
  revert i; induction l as [|y l IH]; intros [|i] H; cbn in *; try lia; auto.
  apply IH; lia.
Qed.

Lemma firstn_remove_at {A} (l : list A) (i : nat) :
  (i < length l)%nat -> firstn i (remove_at l i) = firstn i l.
Proof.
  intros H; unfold remove_at.
  rewrite firstn_app, firstn_firstn, firstn_length_le by lia.
  rewrite Nat.min_id, Nat.sub_diag. cbn. apply app_nil_r.
Qed.

Lemma skipn_remove_at {A} (l : list A) (i : nat) :
  (i < length l)%nat -> skipn i (remove_at l i) = skipn (S i) l.
Proof.
  intros H; unfold remove_at.
  rewrite skipn_app, skipn_all2 by (rewrite firstn_length_le; lia).
  rewrite firstn_length_le, Nat.sub_diag by lia. reflexivity.
Qed.

Lemma tick_retained_app (l1 l2 : list Timer) :
  tick_retained (l1 ++ l2) =
  match tick_retained l1, tick_retained l2 with
  | Some r1, Some r2 => Some (r1 ++ r2)
  | _, _ => None
  end.
Proof.
  induction l1 as [|t l1 IH]; cbn.
  - destruct (tick_retained l2); reflexivity.
  - rewrite IH. destruct (update t) as [[[t' c] ns]|];
      destruct (tick_retained l1); destruct (tick_retained l2); try reflexivity.
    destruct c; reflexivity.
Qed.

Lemma tick_loop_retained (i : nat) (ts : list Timer) (nd : bool) :
  (i <= length ts)%nat ->
  tick_loop i ts nd =
  option_map (fun r => (r ++ skipn i ts, (nd || negb (Nat.eqb i 0))%bool))
             (tick_retained (firstn i ts)).
Proof.
  revert ts nd; induction i as [|i IH]; intros ts nd Hi.
  - cbn. rewrite orb_false_r. reflexivity.
  - cbn [tick_loop].
    destruct (nth_error ts i) as [t|] eqn:Ht;
      [|apply nth_error_None in Ht; lia].
    rewrite (firstn_S_nth ts i t Ht), tick_retained_app. cbn [tick_retained].
    destruct (update t) as [[[t' c] ns]|] eqn:Hu.
    2: { destruct (tick_retained (firstn i ts)); reflexivity. }
    assert (Hlt : (i < length ts)%nat) by lia.
    destruct c.
    + rewrite IH by (rewrite remove_at_length; lia).
      rewrite firstn_remove_at, skipn_remove_at by exact Hlt.
      destruct (tick_retained (firstn i ts)); cbn; [|reflexivity].
      rewrite app_nil_r, orb_true_r. reflexivity.
    + rewrite IH by (rewrite list_set_length; lia).
      rewrite firstn_list_set, skipn_list_set by exact Hlt.
      destruct (tick_retained (firstn i ts)); cbn; [|reflexivity].
      rewrite <- app_assoc, orb_true_r. reflexivity.
Qed.

(** ** C2 *)

(** C2: a bounded timer with maxCycles 1 and one phase, OnBreak in its
    first cycle with 0s left: [update] counts the cycle to 2, moves the
    phase index past the last phase (to 1), sends the completion
    notification and returns [true]; the tick loop then drops that timer
    from the active list wherever it stands ([pre] before it, [post]
    after it, the timers of [post] being updated first): the tick gives
    the same list as a tick on [pre ++ post] would, with a redraw due. *)
Theorem C2_bounded_completion (nm nt : string) (ph : TimerPhase) (pre post : list Timer) :
  update (mkTimer (mkState false 0 1 0 nm nt) [ph] 1 false) =
    Some (mkTimer (mkState false 0 2 1 nm nt) [ph] 1 false, true,
          [(nm, ("All phases completed: " ++ nt)%string)]) /\
  tick_loop (length (pre ++ mkTimer (mkState false 0 1 0 nm nt) [ph] 1 false :: post))
            (pre ++ mkTimer (mkState false 0 1 0 nm nt) [ph] 1 false :: post) false =
    option_map (fun r => (fst r, true))
               (tick_loop (length (pre ++ post)) (pre ++ post) false).
Proof.
  assert (Hu : update (mkTimer (mkState false 0 1 0 nm nt) [ph] 1 false) =
    Some (mkTimer (mkState false 0 2 1 nm nt) [ph] 1 false, true,
          [(nm, ("All phases completed: " ++ nt)%string)])) by reflexivity.
  split; [exact Hu|].
  rewrite !tick_loop_retained by lia. rewrite !firstn_all, !skipn_all.
  rewrite !tick_retained_app. cbn [tick_retained]. rewrite Hu.
  destruct (tick_retained pre) as [a|]; destruct (tick_retained post) as [b|];
    cbn; try reflexivity.
  rewrite !app_nil_r, length_app. cbn [length].
  replace (length pre + S (length post))%nat with (S (length pre + length post)) by lia.
  reflexivity.
Qed.

(** ** C4 *)

(** C4: on lists of equal length, [d num] with [1 <= num <= len] removes
    the timer and the config at position [num-1] and nothing else: the
    lists keep equal lengths, the entries before keep their positions and
    the entries after move down by one. *)
Theorem C4_delete_lockstep (m : TimerManager) (num : Z) :
  length (activeTimers m) = length (configs m) ->
  0 < num <= Z.of_nat (length (activeTimers m)) ->
  exists m',
    delete num m = Some m' /\
    activeTimers m' = remove_at (activeTimers m) (Z.to_nat (num - 1)) /\
    configs m' = remove_at (configs m) (Z.to_nat (num - 1)) /\
    length (activeTimers m') = length (configs m') /\
    length (activeTimers m') = (length (activeTimers m) - 1)%nat /\
    (forall j, (j < Z.to_nat (num - 1))%nat ->
       nth_error (activeTimers m') j = nth_error (activeTimers m) j /\
       nth_error (configs m') j = nth_error (configs m) j) /\
    (forall j, (Z.to_nat (num - 1) <= j)%nat ->
       nth_error (activeTimers m') j = nth_error (activeTimers m) (S j) /\
       nth_error (configs m') j = nth_error (configs m) (S j)).
Proof.
  intros Hlen Hnum.
  assert (Hi : (Z.to_nat (num - 1) < length (activeTimers m))%nat) by lia.
  unfold delete.
  destruct (Z.ltb_spec 0 num); [|lia].
  destruct (Z.leb_spec num (Z.of_nat (length (activeTimers m)))); [|lia].
  destruct (Nat.leb_spec (S (Z.to_nat (num - 1))) (length (configs m))); [|lia].
  cbn [andb].
  eexists; split; [reflexivity|]. cbn [activeTimers configs].
  split; [reflexivity|]. split; [reflexivity|].
  rewrite !remove_at_length by lia.
  split; [lia|]. split; [lia|].
  split; intros j Hj.
  - split; apply remove_at_before; lia.
  - split; apply remove_at_after; lia.
Qed.

(** ** C7 *)

(** C7: on a paused timer any number of calls of [update] return
    [false], send nothing and leave the timer as it was. *)
Theorem C7_paused_noop (t : Timer) (n : nat) :
  isPaused t = true -> run_updates n t = Some (t, repeat false n, []).
Proof.
  intros Hp. induction n as [|n IH]; [reflexivity|].
  cbn [run_updates]. unfold update at 1. rewrite Hp, IH. reflexivity.
Qed.

(** ** C8 *)

(** C8: [r num] on a valid index sets the remaining time of that timer
    to the work duration of its first phase; its sub-phase, cycle count,
    phase index, name, text, phases, cycle bound and pause flag stay, as
    do all other timers, the configs and the redraw mailbox. *)
Theorem C8_reset_frame (m : TimerManager) (num : Z) (t : Timer)
    (ph0 : TimerPhase) (ps : list TimerPhase) :
  0 < num <= Z.of_nat (length (activeTimers m)) ->
  nth_error (activeTimers m) (Z.to_nat (num - 1)) = Some t ->
  phases t = ph0 :: ps ->
  exists m' t',
    reset num m = Some m' /\
    nth_error (activeTimers m') (Z.to_nat (num - 1)) = Some t' /\
    currentTime (state t') = WorkDuration ph0 /\
    isWork (state t') = isWork (state t) /\
    cycles (state t') = cycles (state t) /\
    currentPhase (state t') = currentPhase (state t) /\
    name (state t') = name (state t) /\
    notifText (state t') = notifText (state t) /\
    phases t' = phases t /\ maxCycles t' = maxCycles t /\
    isPaused t' = isPaused t /\
    length (activeTimers m') = length (activeTimers m) /\
    (forall j, j <> Z.to_nat (num - 1) ->
       nth_error (activeTimers m') j = nth_error (activeTimers m) j) /\
    configs m' = configs m /\ displayChan m' = displayChan m.
Proof.
  intros Hnum Ht Hph.
  assert (Hi : (Z.to_nat (num - 1) < length (activeTimers m))%nat) by lia.
  unfold reset.
  destruct (Z.ltb_spec 0 num); [|lia].
  destruct (Z.leb_spec num (Z.of_nat (length (activeTimers m)))); [|lia].
  cbn [andb]. rewrite Ht.
  assert (Hfirst : index (phases t) 0 = Some ph0) by (rewrite Hph; reflexivity).
  rewrite Hfirst.
  do 2 eexists. split; [reflexivity|]. cbn [activeTimers configs displayChan].
  split; [apply list_set_same; exact Hi|].
  cbn. repeat split; try reflexivity.
  - apply list_set_length.
  - intros j Hj. apply list_set_other. congruence.
Qed.

(** ** C10 *)

Lemma new_timer_spec (nm nt : string) (ps : list TimerPhase) (mc : Z) (t : Timer) :
  new_timer nm nt ps mc = Some t ->
  exists ph0 rest, ps = ph0 :: rest /\
    t = mkTimer (mkState true (WorkDuration ph0) 1 0 nm nt) ps mc false.
Proof.
  unfold new_timer, index. destruct ps as [|ph0 rest]; cbn; [discriminate|].
  intros [= <-]. eauto.
Qed.

Lemma phase_loop_nonempty (fuel : nat) (ps ps' : list TimerPhase) (input rest : list string) :
  phase_loop fuel ps input = Some (ps', rest) -> ps' <> [].
Proof.
  revert ps input. induction fuel as [|fuel IH]; intros ps input; cbn; [discriminate|].
  destruct (readLine input) as [workStr in1].
  destruct (parseDuration workStr) as [w|]; [|apply IH].
  destruct (readLine in1) as [breakStr in2].
  destruct (parseDuration breakStr) as [b|]; [|apply IH].
  destruct (readLine in2) as [answer in3].
  destruct (lower_is_y answer); [apply IH|].
  intros [= <- _]. destruct ps; discriminate.
Qed.

(** C10: a timer built from a config with a non-empty phase list, or by
    the interactive [createTimer] (whose phase list is never empty),
    starts Working in cycle 1 of phase 0, unpaused, with the work
    duration of the first phase left. *)
Theorem C10_fresh_timer :
  (forall (c : TimerConfig) (ph0 : TimerPhase) (rest : list TimerPhase),
     Phases c = ph0 :: rest ->
     exists t, timerFromConfig c = Some t /\ initial_state t ph0 /\
       phases t = Phases c /\ maxCycles t = MaxCycles c /\
       name (state t) = Name c /\ notifText (state t) = NotifText c) /\
  (forall (fuel : nat) (input : list string) (t : Timer) (c : TimerConfig)
          (input' : list string),
     createTimer fuel input = Some (t, c, input') ->
     exists ph0 rest, phases t = ph0 :: rest /\ initial_state t ph0 /\
       Phases c = phases t /\ MaxCycles c = maxCycles t /\
       Name c = name (state t) /\ NotifText c = notifText (state t)).
Proof.
  split.
  - intros c ph0 rest Hc. unfold timerFromConfig, new_timer, index.
    rewrite Hc. cbn. eexists; split; [reflexivity|].
    unfold initial_state; cbn; repeat split; auto.
  - intros fuel input t c input'. unfold createTimer.
    destruct (readLine input) as [nm in1].
    destruct (readLine in1) as [nt in2].
    destruct (phase_loop fuel [] in2) as [[ps in3]|] eqn:Hl; [|discriminate].
    destruct (readLine in3) as [cycleType in4].
    set (mc := if String.eqb cycleType "u" then -1 else _).
    destruct (new_timer nm nt ps mc) as [t0|] eqn:Hn; [|discriminate].
    intros [= <- <- _].
    destruct (new_timer_spec _ _ _ _ _ Hn) as (ph0 & rest & -> & ->).
    exists ph0, rest. unfold initial_state; cbn. repeat split; auto.
Qed.

(** ** C3 *)

Lemma index_in_range {A} (l : list A) (i : Z) :
  0 <= i < Z.of_nat (length l) -> exists x, index l i = Some x.
Proof.
  intros H. unfold index.
  destruct (Z.leb_spec 0 i); [|lia]. destruct (Z.ltb_spec i (Z.of_nat (length l))); [|lia].
  cbn [andb]. destruct (nth_error l (Z.to_nat i)) eqn:E; [eauto|].
  apply nth_error_None in E. lia.
Qed.

(** The outcome of one [update] on a timer satisfying the invariant: no
    panic; a timer that goes on satisfies the invariant; a completed timer
    has its phase index at [len(phases)]. *)
Lemma update_phase_ok (t : Timer) :
  phase_ok t ->
  match update t with
  | None => False
  | Some (t', false, _) => phase_ok t'
  | Some (t', true, _) => currentPhase (state t') = Z.of_nat (length (phases t'))
  end.
Proof.
  intros [Hcp Hlen]. unfold update.
  destruct (isPaused t); [split; assumption|].
  destruct (Z.leb (currentTime (state t)) 0).
  2: split; assumption.
  destruct (index_in_range (phases t) (currentPhase (state t)) Hcp) as [cur Hcur].
  rewrite Hcur. destruct (isWork (state t)); [split; assumption|].
  cbv zeta. cbn [set_cycles cycles currentPhase].
  destruct (negb (maxCycles t =? -1) && (wrap64 (cycles (state t) + 1) >? maxCycles t)).
  - cbn [set_currentPhase currentPhase].
    unfold slice_len_ok in Hlen.
    rewrite (wrap64_small (currentPhase (state t) + 1)) by (unfold int64_min in *; lia).
    destruct (Z.geb_spec (currentPhase (state t) + 1) (Z.of_nat (length (phases t)))).
    + cbn. lia.
    + cbn [set_cycles currentPhase state].
      destruct (index_in_range (phases t) (currentPhase (state t) + 1)) as [ph Hph]; [lia|].
      rewrite Hph. split; cbn; [lia | exact Hlen].
  - rewrite Hcur. split; assumption.
Qed.

Lemma in_firstn_incl {A} (n : nat) (l : list A) (x : A) : In x (firstn n l) -> In x l.
Proof.
  revert l; induction n as [|n IH]; intros [|y l] H; cbn in *; try contradiction.
  destruct H as [H|H]; [left; exact H | right; apply IH, H].
Qed.

Lemma in_skipn_incl {A} (n : nat) (l : list A) (x : A) : In x (skipn n l) -> In x l.
Proof.
  revert l; induction n as [|n IH]; intros [|y l] H; cbn in *; auto.
Qed.

Lemma in_remove_at {A} (l : list A) (i : nat) (x : A) :
  In x (remove_at l i) -> In x l.
Proof.
  unfold remove_at. intros H. apply in_app_or in H.
  destruct H as [H|H]; [eapply in_firstn_incl | eapply in_skipn_incl]; eauto.
Qed.

Lemma in_list_set {A} (l : list A) (i : nat) (x y : A) :
  In y (list_set l i x) -> In y l \/ y = x.
Proof.
  revert i; induction l as [|z l IH]; intros [|i] H; cbn in *; auto.
  - destruct H; auto.
  - destruct H as [H|H]; auto. destruct (IH i H); auto.
Qed.

(** The tick loop keeps the invariant of every timer left in the list and
    never panics on such a list; it flags a redraw as soon as it has
    visited one timer. *)
Lemma tick_loop_phase_ok (i : nat) (ts : list Timer) (nd : bool) :
  Forall phase_ok ts -> (i <= length ts)%nat ->
  exists ts' nd', tick_loop i ts nd = Some (ts', nd') /\ Forall phase_ok ts' /\
    nd' = (nd || negb (Nat.eqb i 0))%bool.
Proof.
  revert ts nd. induction i as [|i IH]; intros ts nd Hok Hi.
  - exists ts, nd. rewrite orb_false_r. auto.
  - cbn [tick_loop].
    destruct (nth_error ts i) as [t|] eqn:Ht.
    2: apply nth_error_None in Ht; lia.
    assert (Htok : phase_ok t) by (rewrite Forall_forall in Hok; eapply Hok, nth_error_In, Ht).
    pose proof (update_phase_ok t Htok) as Hu.
    destruct (update t) as [[[t' completed] ns]|]; [|contradiction].
    destruct completed.
    + destruct (IH (remove_at ts i) true) as (ts' & nd' & Hl & Hok' & Hnd).
      * rewrite Forall_forall in *. intros x Hx. apply Hok, (in_remove_at _ _ _ Hx).
      * rewrite remove_at_length by lia. lia.
      * exists ts', nd'. split; [exact Hl|]. split; [exact Hok'|].
        rewrite Hnd. cbn. rewrite orb_true_r. reflexivity.
    + destruct (IH (list_set ts i t') true) as (ts' & nd' & Hl & Hok' & Hnd).
      * rewrite Forall_forall in *. intros x Hx.
        destruct (in_list_set _ _ _ _ Hx) as [H|H]; [apply Hok, H | subst x; exact Hu].
      * rewrite list_set_length. lia.
      * exists ts', nd'. split; [exact Hl|]. split; [exact Hok'|].
        rewrite Hnd. cbn. rewrite orb_true_r. reflexivity.
Qed.

Lemma Forall_list_set {A} (P : A -> Prop) (l : list A) (i : nat) (x : A) :
  Forall P l -> P x -> Forall P (list_set l i x).
Proof.
  intros Hl Hx. rewrite Forall_forall in *. intros y Hy.
  destruct (in_list_set _ _ _ _ Hy) as [H|H]; [apply Hl, H | subst y; exact Hx].
Qed.

Lemma Forall_remove_at {A} (P : A -> Prop) (l : list A) (i : nat) :
  Forall P l -> Forall P (remove_at l i).
Proof.
  rewrite !Forall_forall. intros Hl y Hy. apply Hl, (in_remove_at _ _ _ Hy).
Qed.

Lemma new_timer_phase_ok (nm nt : string) (ps : list TimerPhase) (mc : Z) (t : Timer) :
  new_timer nm nt ps mc = Some t -> slice_len_ok ps -> phase_ok t.
Proof.
  intros Hn Hl. destruct (new_timer_spec _ _ _ _ _ Hn) as (ph0 & rest & -> & ->).
  split; [cbn; lia | exact Hl].
Qed.

Lemma load_timers_phase_ok (cs : list TimerConfig) (ts : list Timer) :
  load_timers cs = Some ts -> Forall (fun c => slice_len_ok (Phases c)) cs ->
  Forall phase_ok ts.
Proof.
  revert ts; induction cs as [|c cs IH]; intros ts Hl Hc; cbn in Hl.
  - injection Hl as <-. constructor.
  - inversion Hc as [|? ? Hc0 Hcs]; subst.
    destruct (timerFromConfig c) as [t|] eqn:Ht; [|discriminate].
    destruct (load_timers cs) as [ts0|] eqn:Hts; [|discriminate].
    injection Hl as <-. constructor.
    + eapply new_timer_phase_ok; [exact Ht | exact Hc0].
    + apply IH; auto.
Qed.

Lemma tick_phase_ok (m : TimerManager) :
  Forall phase_ok (activeTimers m) ->
  exists m', tick m = Some m' /\ Forall phase_ok (activeTimers m').
Proof.
  intros Hok. unfold tick.
  destruct (tick_loop_phase_ok (length (activeTimers m)) (activeTimers m) false Hok (le_n _))
    as (ts' & nd' & Hl & Hok' & _).
  rewrite Hl. eexists; split; [reflexivity | exact Hok'].
Qed.

Lemma mstep_phase_ok (m m' : TimerManager) :
  mstep m m' -> Forall phase_ok (activeTimers m) -> Forall phase_ok (activeTimers m').
Proof.
  intros Hs Hok. destruct Hs as [m m' Ht | m num | m m' num Hr | m m' num Hd
                                | m fuel input t c input' Hc Hlen | m m' Hr].
  - destruct (tick_phase_ok m Hok) as (m'' & Ht' & Hok'). congruence.
  - unfold togglePause.
    destruct ((0 <? num) && (num <=? Z.of_nat (length (activeTimers m)))); [|exact Hok].
    destruct (nth_error (activeTimers m) (Z.to_nat (num - 1))) as [t|] eqn:Ht; [|exact Hok].
    apply Forall_list_set; [exact Hok|].
    rewrite Forall_forall in Hok.
    assert (Htok : phase_ok t) by (apply Hok; eapply nth_error_In; exact Ht).
    exact Htok.
  - unfold reset in Hr.
    destruct ((0 <? num) && (num <=? Z.of_nat (length (activeTimers m)))).
    2: injection Hr as <-; exact Hok.
    destruct (nth_error (activeTimers m) (Z.to_nat (num - 1))) as [t|] eqn:Ht; [|discriminate].
    destruct (index (phases t) 0) as [ph0|]; [|discriminate].
    injection Hr as <-. apply Forall_list_set; [exact Hok|].
    rewrite Forall_forall in Hok.
    assert (Htok : phase_ok t) by (apply Hok; eapply nth_error_In; exact Ht).
    exact Htok.
  - unfold delete in Hd.
    destruct ((0 <? num) && (num <=? Z.of_nat (length (activeTimers m)))).
    2: injection Hd as <-; exact Hok.
    destruct (Nat.leb _ _); [|discriminate].
    injection Hd as <-. apply Forall_remove_at, Hok.
  - unfold createTimer in Hc.
    destruct (readLine input) as [nm in1].
    destruct (readLine in1) as [nt in2].
    destruct (phase_loop fuel [] in2) as [[ps in3]|]; [|discriminate].
    destruct (readLine in3) as [cycleType in4].
    destruct (new_timer _ _ _ _) as [t0|] eqn:Hn; [|discriminate].
    injection Hc as <- _ _.
    apply Forall_app; split; [exact Hok|]. constructor; [|constructor].
    destruct (new_timer_spec _ _ _ _ _ Hn) as (ph0 & rest & Hps & Ht0).
    eapply new_timer_phase_ok; [exact Hn|]. subst t0; exact Hlen.
  - unfold receive in Hr. destruct (displayChan m); [discriminate|].
    injection Hr as <-. exact Hok.
Qed.

Lemma reachable_phase_ok (m : TimerManager) :
  reachable m -> Forall phase_ok (activeTimers m).
Proof.
  induction 1 as [cs ts Hl Hc | m m' _ IH Hs].
  - eapply load_timers_phase_ok; eauto.
  - eapply mstep_phase_ok; eauto.
Qed.

(** C3 (as stated, refuted): the call of [update] that reports completion
    leaves the phase index at [len(phases)], outside [0, len(phases)). *)
Lemma C3_counterexample :
  ~ (forall t t' b ns, phase_ok t -> update t = Some (t', b, ns) -> phase_ok t').
Proof.
  intros H.
  assert (Hok : phase_ok (mkTimer (mkState false 0 1 0 "a" "n") [mkPhase 0 0] 1 false))
    by (split; cbn; [lia | unfold slice_len_ok, int64_max; cbn; lia]).
  destruct (H _ _ _ _ Hok eq_refl) as [Hcp _]. cbn in Hcp. lia.
Qed.

(** C3 (amended): on a timer with [0 <= currentPhase < len(phases)],
    [update] never indexes out of range; when it returns [false] the
    invariant still holds; when it returns [true] (completion) the phase
    index equals [len(phases)]. In every reachable manager (after startup
    and any sequence of ticks, commands and redraws) every timer of the
    active list satisfies the invariant, since the tick loop removes the
    completed timer, and the next tick does not panic. *)
Theorem C3_amended :
  (forall t, phase_ok t -> exists r, update t = Some r) /\
  (forall t t' ns, phase_ok t -> update t = Some (t', false, ns) -> phase_ok t') /\
  (forall t t' ns, phase_ok t -> update t = Some (t', true, ns) ->
     currentPhase (state t') = Z.of_nat (length (phases t'))) /\
  (forall m, reachable m ->
     Forall phase_ok (activeTimers m) /\ exists m', tick m = Some m').
Proof.
  split; [|split; [|split]].
  - intros t Hok. pose proof (update_phase_ok t Hok) as Hu.
    destruct (update t) as [r|]; [eauto | contradiction].
  - intros t t' ns Hok Heq. pose proof (update_phase_ok t Hok) as Hu.
    rewrite Heq in Hu. exact Hu.
  - intros t t' ns Hok Heq. pose proof (update_phase_ok t Hok) as Hu.
    rewrite Heq in Hu. exact Hu.
  - intros m Hr. pose proof (reachable_phase_ok m Hr) as Hok.
    split; [exact Hok|]. destruct (tick_phase_ok m Hok) as (m' & Ht & _). eauto.
Qed.

(** ** C9 *)

Lemma tick_loop_needsDisplay (i : nat) (ts ts' : list Timer) (nd nd' : bool) :
  tick_loop i ts nd = Some (ts', nd') -> nd' = (nd || negb (Nat.eqb i 0))%bool.
Proof.
  revert ts nd. induction i as [|i IH]; intros ts nd Hl; cbn in Hl.
  - injection Hl as _ <-. rewrite orb_false_r. reflexivity.
  - destruct (nth_error ts i) as [t|]; [|discriminate].
    destruct (update t) as [[[t1 c] ns]|]; [|discriminate].
    apply IH in Hl. rewrite Hl. cbn. rewrite !orb_true_r. reflexivity.
Qed.

Lemma tick_displayChan (m m' : TimerManager) :
  tick m = Some m' ->
  displayChan m' = if Nat.eqb (length (activeTimers m)) 0 then displayChan m
                   else try_send (displayChan m).
Proof.
  unfold tick.
  destruct (tick_loop _ _ _) as [[ts nd]|] eqn:Hl; [|discriminate].
  intros [= <-]. cbn [displayChan].
  apply tick_loop_needsDisplay in Hl. cbn in Hl. subst nd.
  destruct (Nat.eqb _ 0); reflexivity.
Qed.

Lemma try_send_bound (n : nat) : (n <= 1)%nat -> try_send n = 1%nat.
Proof. intros H. destruct n as [|[|n]]; cbn; auto; lia. Qed.

Lemma mstep_displayChan (m m' : TimerManager) :
  mstep m m' -> (displayChan m <= 1)%nat -> (displayChan m' <= 1)%nat.
Proof.
  intros Hs Hc. destruct Hs as [m m' Ht | m num | m m' num Hr | m m' num Hd
                               | m fuel input t c input' _ _ | m m' Hr].
  - rewrite (tick_displayChan _ _ Ht).
    destruct (Nat.eqb _ 0); [exact Hc | rewrite try_send_bound; auto].
  - unfold togglePause.
    destruct (_ && _); [|exact Hc]. destruct (nth_error _ _); exact Hc.
  - unfold reset in Hr. destruct (_ && _); [|injection Hr as <-; exact Hc].
    destruct (nth_error _ _) as [t|]; [|discriminate].
    destruct (index _ _); [|discriminate]. injection Hr as <-. exact Hc.
  - unfold delete in Hd. destruct (_ && _); [|injection Hd as <-; exact Hc].
    destruct (Nat.leb _ _); [|discriminate]. injection Hd as <-. exact Hc.
  - exact Hc.
  - unfold receive in Hr. destruct (displayChan m) as [|k]; [discriminate|].
    injection Hr as <-. cbn. lia.
Qed.

(** C9: the redraw mailbox never holds more than one request in any
    reachable manager; a tick over a non-empty list posts a request when
    none is pending and drops it when one is (over an empty list it posts
    nothing); so [n >= 1] ticks in a row, the first over a non-empty list,
    leave exactly one pending request. *)
Theorem C9_redraw_coalescing :
  (forall m, reachable m -> (displayChan m <= 1)%nat) /\
  (forall m m', tick m = Some m' -> activeTimers m <> [] ->
     (displayChan m = 0%nat -> displayChan m' = 1%nat) /\
     (displayChan m = 1%nat -> displayChan m' = 1%nat)) /\
  (forall m m', tick m = Some m' -> activeTimers m = [] ->
     displayChan m' = displayChan m) /\
  (forall n m m', (0 < n)%nat -> activeTimers m <> [] -> (displayChan m <= 1)%nat ->
     run_ticks n m = Some m' -> displayChan m' = 1%nat).
Proof.
  split; [|split; [|split]].
  - induction 1 as [cs ts _ _ | m m' _ IH Hs]; [cbn; lia|].
    eapply mstep_displayChan; eauto.
  - intros m m' Ht Hne. rewrite (tick_displayChan _ _ Ht).
    destruct (activeTimers m) as [|t ts]; [congruence|]. cbn.
    split; intros ->; reflexivity.
  - intros m m' Ht He. rewrite (tick_displayChan _ _ Ht), He. reflexivity.
  - intros n m m' Hn Hne Hc Hr. destruct n as [|n]; [lia|]. cbn in Hr.
    destruct (tick m) as [m1|] eqn:Ht; [|discriminate].
    assert (H1 : displayChan m1 = 1%nat).
    { rewrite (tick_displayChan _ _ Ht).
      destruct (activeTimers m) as [|t ts]; [congruence|]. cbn.
      apply try_send_bound, Hc. }
    clear Ht Hne Hc Hn. revert m1 H1 Hr. induction n as [|n IH]; intros m1 H1 Hr.
    + cbn in Hr. injection Hr as <-. exact H1.
    + cbn in Hr. destruct (tick m1) as [m2|] eqn:Ht; [|discriminate].
      apply (IH m2); [|exact Hr].
      rewrite (tick_displayChan _ _ Ht), H1.
      destruct (Nat.eqb _ 0); reflexivity.
Qed.

(** ** C5 *)

Lemma wrap64_shift (z k : Z) : wrap64 (z + k * 2 ^ 64) = wrap64 z.
Proof.
  unfold wrap64.
  replace (z + k * 2 ^ 64 + 2 ^ 63) with (z + 2 ^ 63 + k * 2 ^ 64) by ring.
  rewrite Z_mod_plus_full. reflexivity.
Qed.

Lemma wrap64_decomp (z : Z) : exists k, wrap64 z = z + k * 2 ^ 64.
Proof.
  exists (- ((z + 2 ^ 63) / 2 ^ 64)). unfold wrap64.
  rewrite Z.mod_eq by lia. ring.
Qed.

Lemma wrap64_add (a b : Z) : wrap64 (wrap64 a + wrap64 b) = wrap64 (a + b).
Proof.
  destruct (wrap64_decomp a) as [ka Ha]. destruct (wrap64_decomp b) as [kb Hb].
  rewrite Ha, Hb.
  replace (a + ka * 2 ^ 64 + (b + kb * 2 ^ 64)) with (a + b + (ka + kb) * 2 ^ 64) by ring.
  apply wrap64_shift.
Qed.

(** C5 (as stated, refuted): ["153722868"] is a valid integer, but
    153722868 minutes exceed the int64 nanosecond range and the result
    wraps around instead of being 153722868 minutes. *)
Lemma C5_counterexample :
  ~ (forall s n, contains_colon s = false -> Atoi s = Some n ->
       parseDuration_trimmed s = inl (n * Minute)).
Proof.
  intros H.
  specialize (H "153722868"%string 153722868 eq_refl eq_refl).
  vm_compute in H. discriminate.
Qed.

(** C5 (amended): on a trimmed string, [parseDuration] returns the same as
    on the string after trimming; it succeeds exactly when the string has a
    [':'] and splits into two fields both accepted by [strconv.Atoi]
    ([MM], [SS]), the result being [MM*60 + SS] seconds in nanoseconds
    wrapped into int64, or when it has no [':'] and the whole string is
    accepted by [strconv.Atoi] ([N]), the result being [N] minutes wrapped
    into int64; the wrap changes nothing inside the int64 range. ["5"] is
    5 minutes, ["1:30"] 90 seconds, ["bad"] and ["1:2:3"] fail. *)
Theorem C5_amended :
  (forall s, TrimSpace s = s -> parseDuration s = parseDuration_trimmed s) /\
  (forall s d,
     parseDuration_trimmed s = inl d <->
     (contains_colon s = true /\
      exists p0 p1 mm ss, split_colon s = [p0; p1] /\ Atoi p0 = Some mm /\
        Atoi p1 = Some ss /\ d = wrap64 (mm * Minute + ss * Second)) \/
     (contains_colon s = false /\
      exists n, Atoi s = Some n /\ d = wrap64 (n * Minute))) /\
  (forall z, int64_min <= z <= int64_max -> wrap64 z = z) /\
  parseDuration "5" = inl (5 * Minute) /\
  parseDuration "1:30" = inl (90 * Second) /\
  (exists e, parseDuration "bad" = inr e) /\
  (exists e, parseDuration "1:2:3" = inr e).
Proof.
  split; [|split; [|split; [|split; [|split; [|split]]]]].
  - intros s Hs. unfold parseDuration. rewrite Hs. reflexivity.
  - intros s d. unfold parseDuration_trimmed.
    destruct (contains_colon s).
    + split.
      * intros H. left. split; [reflexivity|].
        destruct (split_colon s) as [|p0 [|p1 [|p2 ps]]]; try discriminate.
        destruct (Atoi p0) as [mm|] eqn:H0; [|discriminate].
        destruct (Atoi p1) as [ss|] eqn:H1; [|discriminate].
        injection H as <-. exists p0, p1, mm, ss.
        refine (conj eq_refl (conj H0 (conj H1 _))). apply wrap64_add.
      * intros [(_ & p0 & p1 & mm & ss & Hsp & H0 & H1 & ->) | (H & _)]; [|discriminate].
        rewrite Hsp, H0, H1. f_equal. apply wrap64_add.
    + split.
      * intros H. right. split; [reflexivity|].
        destruct (Atoi s) as [n|] eqn:Hn; [|discriminate].
        injection H as <-. eauto.
      * intros [(H & _) | (_ & n & Hn & ->)]; [discriminate|].
        rewrite Hn. reflexivity.
  - exact wrap64_small.
  - reflexivity.
  - reflexivity.
  - eexists; reflexivity.
  - eexists; reflexivity.
Qed.

(** ** C6 *)

(** Decimal literals written by [AppendInt] are read back by [ParseInt]. *)
Lemma digits_value_string_of_uint (d : uint) :
  digits_value (NilZero.string_of_uint d) = Some (Z.of_N (N.of_uint d)).
Proof.
  unfold digits_value.
  destruct d; try reflexivity; rewrite NilZero.usu by discriminate; reflexivity.
Qed.

Lemma Atoi_unsigned (d : uint) :
  Atoi (NilZero.string_of_uint d) =
  if in_int64 (Z.of_N (N.of_uint d)) then Some (Z.of_N (N.of_uint d)) else None.
Proof.
  assert (Hplain : forall s, match s with String "-" _ | String "+" _ => False | _ => True end%char ->
            Atoi s = match digits_value s with
                     | Some v => if in_int64 (1 * v) then Some (1 * v) else None
                     | None => None end).
  { intros [|c r] Hc; [reflexivity|].
    destruct c as [[] [] [] [] [] [] [] []]; try contradiction; reflexivity. }
  rewrite Hplain by (destruct d; exact I).
  rewrite digits_value_string_of_uint, Z.mul_1_l. reflexivity.
Qed.

Lemma Atoi_string_of_Z (z : Z) : in_int64 z = true -> Atoi (string_of_Z z) = Some z.
Proof.
  intros Hz. unfold string_of_Z.
  destruct (Z.ltb_spec z 0) as [Hneg|Hnn].
  - unfold Atoi at 1.
    change (match digits_value (NilZero.string_of_uint (N.to_uint (Z.to_N (- z)))) with
            | Some v => if in_int64 (-1 * v) then Some (-1 * v) else None
            | None => None end = Some z).
    rewrite digits_value_string_of_uint, DecimalN.Unsigned.of_to, Z2N.id by lia.
    replace (-1 * - z) with z by ring. rewrite Hz. reflexivity.
  - rewrite Atoi_unsigned, DecimalN.Unsigned.of_to, Z2N.id by lia.
    rewrite Hz. reflexivity.
Qed.

Lemma rune_len_pos (s : string) (k : nat) : rune_len s = Some k -> (1 <= k)%nat.
Proof.
  unfold rune_len. destruct s as [|b0 r]; [discriminate|].
  destruct (Nat.ltb _ 128); [intros [= <-]; lia|].
  repeat match goal with
         | |- context [if ?c then _ else _] => destruct c
         end;
    repeat match goal with
           | |- context [match ?r with EmptyString => _ | String _ _ => _ end] =>
             destruct r
           | |- context [if ?c then _ else _] => destruct c
           end;
    try discriminate; intros [= <-]; lia.
Qed.

Lemma str_take_drop (k : nat) (s : string) : (str_take k s ++ str_drop k s)%string = s.
Proof.
  revert s; induction k as [|k IH]; intros [|c r]; cbn; auto. rewrite IH. reflexivity.
Qed.

Lemma str_drop_length (k : nat) (s : string) :
  String.length (str_drop k s) = (String.length s - k)%nat.
Proof.
  revert s; induction k as [|k IH]; intros [|c r]; cbn; auto.
Qed.

(** A valid UTF-8 string is written unchanged. *)
Lemma utf8_coerce_valid (s0 : string) : utf8_valid s0 = true -> utf8_coerce s0 = s0.
Proof.
  unfold utf8_valid, utf8_coerce.
  assert (Hgen : forall n s, (String.length s <= n)%nat -> utf8_valid_fuel n s = true ->
                   utf8_coerce_fuel n s = s).
  { induction n as [|n IH]; intros s Hlen Hv.
    - destruct s; cbn in Hlen; [reflexivity | lia].
    - destruct s as [|b r]; [reflexivity|].
      change (match rune_len (String b r) with
              | Some k => utf8_valid_fuel n (str_drop k (String b r))
              | None => false end = true) in Hv.
      change ((match rune_len (String b r) with
               | Some k => (str_take k (String b r) ++
                            utf8_coerce_fuel n (str_drop k (String b r)))%string
               | None => (replacement_char ++ utf8_coerce_fuel n r)%string
               end) = String b r).
      destruct (rune_len (String b r)) as [k|] eqn:Hk; [|discriminate].
      rewrite IH; [apply str_take_drop | | exact Hv].
      rewrite str_drop_length. apply rune_len_pos in Hk.
      change (String.length (String b r)) with (S (String.length r)) in *. lia. }
  apply Hgen. lia.
Qed.

Lemma mapM_map {A B C} (f : B -> option C) (g : A -> B) (h : A -> C) (l : list A) :
  Forall (fun x => f (g x) = Some (h x)) l -> mapM f (map g l) = Some (map h l).
Proof.
  induction 1 as [|x l Hx _ IH]; cbn; [reflexivity|]. rewrite Hx, IH. reflexivity.
Qed.

Lemma phase_roundtrip (p : TimerPhase) :
  in_int64 (WorkDuration p) = true -> in_int64 (BreakDuration p) = true ->
  TimerPhase_UnmarshalJSON (TimerPhase_MarshalJSON p) = Some p.
Proof.
  intros Hw Hb. destruct p as [w b]. cbn [TimerPhase_UnmarshalJSON TimerPhase_MarshalJSON].
  unfold encode_int. cbn [decode_phase_fields String.eqb Ascii.eqb Bool.eqb andb].
  cbn [decode_int WorkDuration BreakDuration] in *.
  rewrite (Atoi_string_of_Z w Hw). cbn [decode_phase_fields String.eqb Ascii.eqb Bool.eqb andb].
  rewrite (Atoi_string_of_Z b Hb). reflexivity.
Qed.

Lemma config_roundtrip (c : TimerConfig) :
  config_wf c -> decode_config (encode_config c) = Some (coerce_config c).
Proof.
  intros [Hm Hps]. destruct c as [nm nt ps mc]. cbn [Name NotifText Phases MaxCycles] in *.
  unfold decode_config, encode_config, encode_string, encode_int.
  cbn [decode_config_fields String.eqb Ascii.eqb Bool.eqb andb decode_string
       option_map Name NotifText Phases MaxCycles decode_phases decode_int].
  rewrite (mapM_map _ _ (fun p => p)).
  2: { eapply Forall_impl; [|exact Hps]. intros p [Hw Hb]. apply phase_roundtrip; assumption. }
  cbn [option_map]. rewrite map_id.
  cbn [decode_config_fields String.eqb Ascii.eqb Bool.eqb andb decode_int option_map
       Name NotifText Phases MaxCycles].
  rewrite (Atoi_string_of_Z mc Hm). reflexivity.
Qed.

(** C6 (as stated, refuted): a name holding the byte 0xFF (not UTF-8)
    comes back from the file with U+FFFD in its place. *)
Lemma C6_counterexample :
  ~ (forall cs, Forall config_wf cs ->
       loadTimerConfigs (saveTimerConfigs cs) = Some cs).
Proof.
  intros H.
  set (c := mkConfig (String (ascii_of_nat 255) EmptyString) "n" [mkPhase Second Second] 1).
  assert (Hwf : Forall config_wf [c]).
  { constructor; [|constructor]. split; [reflexivity|]. repeat constructor. }
  specialize (H [c] Hwf). vm_compute in H. discriminate.
Qed.

(** C6 (amended): saving a list of configs and loading it back gives the
    same list with every name and notification text passed through the
    encoder's UTF-8 coercion (each byte not starting a valid UTF-8
    sequence replaced by U+FFFD); the phases with their durations, as
    int64 nanosecond counts, and [maxCycles] come back bit-exact. When all
    names and texts are valid UTF-8 the list comes back equal. *)
Theorem C6_amended (cs : list TimerConfig) :
  Forall config_wf cs ->
  loadTimerConfigs (saveTimerConfigs cs) = Some (map coerce_config cs) /\
  (Forall (fun c => utf8_valid (Name c) = true /\ utf8_valid (NotifText c) = true) cs ->
   loadTimerConfigs (saveTimerConfigs cs) = Some cs).
Proof.
  intros Hwf.
  assert (Hrt : loadTimerConfigs (saveTimerConfigs cs) = Some (map coerce_config cs)).
  { unfold loadTimerConfigs, saveTimerConfigs. apply mapM_map.
    eapply Forall_impl; [|exact Hwf]. apply config_roundtrip. }
  split; [exact Hrt|].
  intros Hv. rewrite Hrt. f_equal. clear Hrt Hwf.
  induction Hv as [|c cs' [Hn Ht] _ IH]; [reflexivity|].
  cbn [map]. rewrite IH. f_equal.
  destruct c as [nm nt ps mc]. unfold coerce_config. cbn [Name NotifText Phases MaxCycles] in *.
  rewrite (utf8_coerce_valid nm Hn), (utf8_coerce_valid nt Ht). reflexivity.
Qed.

(** ** The lock-step of the two lists after a completion *)

(** The tick loop drops a completed timer from [activeTimers] but keeps its
    config: after startup on one bounded config with 0s durations, two
    ticks leave no active timer but one config. *)
Lemma lockstep_broken_by_completion :
  exists m, reachable m /\ length (activeTimers m) <> length (configs m).
Proof.
  set (c := mkConfig "a" "n" [mkPhase 0 0] 1).
  assert (H0 : reachable (mkManager [mkTimer (mkState true 0 1 0 "a" "n") [mkPhase 0 0] 1 false]
                                    [c] 0)).
  { apply reach_start; [reflexivity|].
    constructor; [|constructor]. unfold slice_len_ok, int64_max; cbn; lia. }
  eexists. split.
  - eapply reach_step; [eapply reach_step; [exact H0 | apply step_tick; reflexivity]|].
    apply step_tick; reflexivity.
  - cbn. discriminate.
Qed.

(** ** Witnesses *)

Lemma C1_amended_witness :
  exists r, run_updates 3 (example_timer "a" "n" 1) = Some r /\
            isWork (state (fst (fst r))) = false /\ currentTime (state (fst (fst r))) = Second.
Proof.
  destruct (C1_amended "a" "n" 1 ltac:(unfold int64_max; lia)) as [H _].
  eexists. split; [exact H | split; reflexivity].
Defined.

Lemma C3_amended_witness :
  exists r, update (mkTimer (mkState false 0 1 0 "a" "n") [mkPhase 0 0] 1 false) = Some r.
Proof.
  destruct C3_amended as [H _]. apply H.
  split; cbn; [lia | unfold slice_len_ok, int64_max; cbn; lia].
Defined.

Lemma C4_delete_lockstep_witness :
  exists m', delete 1 (mkManager [example_timer "a" "n" 1; example_timer "b" "m" 1]
                                 [mkConfig "a" "n" [] 1; mkConfig "b" "m" [] 1] 0) = Some m' /\
             length (activeTimers m') = length (configs m').
Proof.
  destruct (C4_delete_lockstep
              (mkManager [example_timer "a" "n" 1; example_timer "b" "m" 1]
                          [mkConfig "a" "n" [] 1; mkConfig "b" "m" [] 1] 0) 1
              eq_refl ltac:(cbn; lia)) as (m' & Hd & _ & _ & Hl & _).
  exists m'. split; [exact Hd | exact Hl].
Defined.

Lemma C5_amended_witness : parseDuration "1:30" = parseDuration_trimmed "1:30".
Proof.
  destruct C5_amended as [H _]. apply H. reflexivity.
Defined.

Lemma C6_amended_witness :
  loadTimerConfigs (saveTimerConfigs [mkConfig "a" "n" [mkPhase Second (2 * Second)] 3]) =
  Some [mkConfig "a" "n" [mkPhase Second (2 * Second)] 3].
Proof.
  apply (C6_amended [mkConfig "a" "n" [mkPhase Second (2 * Second)] 3]).
  - repeat constructor.
  - repeat constructor.
Defined.

Lemma C7_paused_noop_witness :
  run_updates 3 (set_isPaused true (example_timer "a" "n" 1)) =
  Some (set_isPaused true (example_timer "a" "n" 1), [false; false; false], []).
Proof.
  apply (C7_paused_noop (set_isPaused true (example_timer "a" "n" 1)) 3). reflexivity.
Defined.

Lemma C8_reset_frame_witness :
  exists m', reset 1 (mkManager [mkTimer (mkState false 5 2 0 "a" "n")
                                          [mkPhase (2 * Second) Second] (-1) false] [] 0) = Some m'.
Proof.
  destruct (C8_reset_frame (mkManager [mkTimer (mkState false 5 2 0 "a" "n")
                                         [mkPhase (2 * Second) Second] (-1) false] [] 0)
              1 (mkTimer (mkState false 5 2 0 "a" "n") [mkPhase (2 * Second) Second] (-1) false)
              (mkPhase (2 * Second) Second) [] ltac:(cbn; lia) eq_refl eq_refl)
    as (m' & t' & Hr & _).
  exists m'. exact Hr.
Defined.

Lemma C9_redraw_coalescing_witness :
  exists m', run_ticks 3 (mkManager [example_timer "a" "n" 1] [] 0) = Some m' /\
             displayChan m' = 1%nat.
Proof.
  destruct C9_redraw_coalescing as (_ & _ & _ & H).
  destruct (run_ticks 3 (mkManager [example_timer "a" "n" 1] [] 0)) as [m'|] eqn:Hr.
  - exists m'. split; [reflexivity|].
    apply (H 3%nat (mkManager [example_timer "a" "n" 1] [] 0) m');
      [lia | discriminate | cbn; lia | exact Hr].
  - vm_compute in Hr. discriminate.
Defined.

Lemma C10_fresh_timer_witness :
  exists t, timerFromConfig (mkConfig "a" "n" [mkPhase Second Second] 2) = Some t /\
            initial_state t (mkPhase Second Second).
Proof.
  destruct C10_fresh_timer as [H _].
  destruct (H (mkConfig "a" "n" [mkPhase Second Second] 2) (mkPhase Second Second) [] eq_refl)
    as (t & Ht & Hi & _).
  exists t. split; [exact Ht | exact Hi].
Defined.

(** * Further properties of the code *)

(** ** [update] *)

Ltac case_update H :=
  unfold update in H; cbv zeta in H;
  repeat match type of H with
  | context [if ?b then _ else _] => let E := fresh "E" in destruct b eqn:E
  | context [match ?x with Some _ => _ | None => _ end] =>
      let E := fresh "E" in destruct x eqn:E
  end;
  try discriminate H; injection H; intros; subst.

Ltac norm_bool :=
  repeat (rewrite ?Z.gtb_ltb, ?Z.geb_leb, ?Bool.andb_true_iff, ?Bool.andb_false_iff,
            ?Bool.negb_true_iff, ?Bool.negb_false_iff, ?Z.eqb_eq, ?Z.eqb_neq,
            ?Z.ltb_lt, ?Z.ltb_ge, ?Z.leb_le, ?Z.leb_gt in *).

Lemma index_In {A} (l : list A) (i : Z) (x : A) : index l i = Some x -> In x l.
Proof.
  unfold index. destruct ((0 <=? i) && (i <? Z.of_nat (length l))); [|discriminate].
  apply nth_error_In.
Qed.

(** An unlimited timer ([maxCycles = -1]) never reports completion, so
    the tick loop never removes it. *)
Theorem update_unlimited_never_completes (t t' : Timer) (completed : bool)
    (ns : list Notification) :
  maxCycles t = -1 -> update t = Some (t', completed, ns) -> completed = false.
Proof.
  intros Hm H. case_update H; try reflexivity.
  rewrite Hm in *. discriminate.
Qed.

(** With a bound [1 <= maxCycles < int64_max], a timer whose cycle count
    is within [1..maxCycles] keeps it there across every call of [update]
    that does not complete it. *)
Theorem update_cycles_bounded (t t' : Timer) (ns : list Notification) :
  1 <= maxCycles t < int64_max ->
  1 <= cycles (state t) <= maxCycles t ->
  update t = Some (t', false, ns) ->
  maxCycles t' = maxCycles t /\ 1 <= cycles (state t') <= maxCycles t'.
Proof.
  intros Hm Hc H. case_update H; cbn; try (split; [reflexivity | lia]).
  all: cbn [set_cycles set_currentPhase cycles currentPhase] in *; norm_bool.
  all: try (split; [reflexivity|]).
  all: try lia.
  all: destruct E3 as [E3 | E3]; [lia|];
       rewrite wrap64_small in E3 |- * by (unfold int64_min in *; lia); lia.
Qed.

(** When every phase lasts a whole, non-negative number of seconds and the
    remaining time is one too, [update] keeps the remaining time a whole,
    non-negative number of seconds: the countdown never goes below zero. *)
Theorem update_secs_ok (t t' : Timer) (completed : bool) (ns : list Notification) :
  Forall (fun p => secs_ok (WorkDuration p) /\ secs_ok (BreakDuration p)) (phases t) ->
  secs_ok (currentTime (state t)) ->
  update t = Some (t', completed, ns) ->
  secs_ok (currentTime (state t')).
Proof.
  intros Hps Hct H. rewrite Forall_forall in Hps.
  case_update H; cbn [with_state state set_currentTime set_isWork set_cycles
                      set_currentPhase currentTime] in *; try assumption.
  - apply Hps. eapply index_In; eassumption.
  - apply Hps. eapply index_In; eassumption.
  - apply Hps. eapply index_In; eassumption.
  - apply Z.leb_gt in E0. unfold secs_ok, Second, int64_max in *.
    rewrite wrap64_small by (unfold int64_min, int64_max; Z.div_mod_to_equations; lia).
    Z.div_mod_to_equations; lia.
Qed.

(** A paused timer, or one with time left, sends no notification; an
    unpaused timer at or below zero that does not panic sends exactly one,
    titled with its name: "Break: <text>" when leaving Working,
    "All phases completed: <text>" when it completes, and the plain text
    when it goes back to Working. *)
Theorem update_notifications (t t' : Timer) (completed : bool) (ns : list Notification) :
  update t = Some (t', completed, ns) ->
  ((isPaused t = true \/ 0 < currentTime (state t)) -> ns = []) /\
  ((isPaused t = false /\ currentTime (state t) <= 0) ->
   ns = [(name (state t),
          if isWork (state t) then ("Break: " ++ notifText (state t))%string
          else if completed then ("All phases completed: " ++ notifText (state t))%string
          else notifText (state t))]).
Proof.
  intros H. case_update H; cbn [set_cycles set_currentPhase name notifText] in *;
    norm_bool; rewrite ?E1; split; intros Hc; try reflexivity;
    try (destruct Hc as [Hc | Hc]; congruence || lia);
    try (destruct Hc; congruence || lia).
Qed.

(** On a timer whose phase index is in range, [update] reports completion
    exactly when the timer is running, at or below zero, OnBreak, bounded,
    its incremented cycle count exceeds the bound, and it is on its last
    phase. *)
Theorem update_completes_iff (t : Timer) :
  phase_ok t ->
  (exists t' ns, update t = Some (t', true, ns)) <->
  (isPaused t = false /\ currentTime (state t) <= 0 /\ isWork (state t) = false /\
   maxCycles t <> -1 /\ maxCycles t < wrap64 (cycles (state t) + 1) /\
   currentPhase (state t) = Z.of_nat (length (phases t)) - 1).
Proof.
  intros [Hcp Hlen]. unfold slice_len_ok in Hlen. split.
  - intros (t' & ns & H). case_update H; try discriminate.
    cbn [set_cycles set_currentPhase cycles currentPhase] in *. norm_bool.
    rewrite wrap64_small in E4 by (unfold int64_min in *; lia).
    destruct E3 as [E3 E3']. repeat split; auto; lia.
  - intros (Hp & Hz & Hw & Hm & Hc & Hl).
    destruct (index_in_range _ _ Hcp) as [cur Hcur].
    unfold update; cbv zeta. rewrite Hp, Hcur, Hw.
    destruct (Z.leb_spec (currentTime (state t)) 0); [|lia].
    cbn [set_cycles set_currentPhase cycles currentPhase].
    destruct (Z.eqb_spec (maxCycles t) (-1)); [contradiction|].
    destruct (Z.gtb_spec (wrap64 (cycles (state t) + 1)) (maxCycles t)); [|lia].
    cbn [negb andb].
    rewrite wrap64_small by (unfold int64_min in *; lia).
    destruct (Z.geb_spec (currentPhase (state t) + 1) (Z.of_nat (length (phases t)))); [|lia].
    eauto.
Qed.

(** A bounded timer OnBreak at or below zero whose incremented cycle count
    exceeds the bound, with a next phase, moves to that phase: Working,
    cycle 1, the next phase's work duration, with the plain notification. *)
Theorem update_next_phase (t : Timer) (ph : TimerPhase) :
  phase_ok t -> isPaused t = false -> currentTime (state t) <= 0 ->
  isWork (state t) = false -> maxCycles t <> -1 ->
  maxCycles t < wrap64 (cycles (state t) + 1) ->
  index (phases t) (currentPhase (state t) + 1) = Some ph ->
  update t =
    Some (with_state t (mkState true (WorkDuration ph) 1 (currentPhase (state t) + 1)
                          (name (state t)) (notifText (state t))),
          false, [(name (state t), notifText (state t))]).
Proof.
  intros [Hcp Hlen] Hp Hz Hw Hm Hc Hph. unfold slice_len_ok in Hlen.
  destruct (index_in_range _ _ Hcp) as [cur Hcur].
  assert (Hin : currentPhase (state t) + 1 < Z.of_nat (length (phases t))).
  { unfold index in Hph.
    destruct (Z.ltb_spec (currentPhase (state t) + 1) (Z.of_nat (length (phases t))));
      [assumption | rewrite andb_false_r in Hph; discriminate]. }
  unfold update; cbv zeta. rewrite Hp, Hcur, Hw.
  destruct (Z.leb_spec (currentTime (state t)) 0); [|lia].
  cbn [set_cycles set_currentPhase cycles currentPhase].
  destruct (Z.eqb_spec (maxCycles t) (-1)); [contradiction|].
  destruct (Z.gtb_spec (wrap64 (cycles (state t) + 1)) (maxCycles t)); [|lia].
  cbn [negb andb].
  rewrite wrap64_small by (unfold int64_min in *; lia).
  destruct (Z.geb_spec (currentPhase (state t) + 1) (Z.of_nat (length (phases t)))); [lia|].
  cbn [set_cycles currentPhase state]. rewrite Hph. reflexivity.
Qed.

(** ** The tick loop as a single pass over the timers *)

(** The reverse loop with in-place removal is the same as updating every
    timer once and keeping, in their original order, exactly those that
    did not complete; the configs are untouched and a redraw is posted
    when the list was not empty. *)
Theorem tick_keeps_uncompleted_in_order (m : TimerManager) :
  tick m =
  option_map (fun r => mkManager r (configs m)
                         match activeTimers m with
                         | [] => displayChan m
                         | _ => try_send (displayChan m)
                         end)
             (tick_retained (activeTimers m)).
Proof.
  unfold tick. rewrite tick_loop_retained by lia.
  rewrite firstn_all, skipn_all.
  destruct (tick_retained (activeTimers m)); cbn; [|reflexivity].
  rewrite app_nil_r. destruct (activeTimers m); reflexivity.
Qed.

Lemma tick_retained_length (ts r : list Timer) :
  tick_retained ts = Some r ->
  (length r <= length ts)%nat /\
  (length r = length ts <-> Forall (fun t => exists t' ns, update t = Some (t', false, ns)) ts).
Proof.
  revert r; induction ts as [|t ts IH]; intros r H; cbn in H.
  - injection H as <-. split; [cbn; lia|]. split; [constructor | reflexivity].
  - destruct (update t) as [[[t' c] ns]|] eqn:Hu; [|discriminate].
    destruct (tick_retained ts) as [r0|]; [|discriminate].
    injection H as <-. destruct (IH r0 eq_refl) as [Hle Hiff].
    destruct c; cbn [length].
    + split; [lia|]. split; [lia|]. intros Hf. inversion Hf as [|? ? (? & ? & Hf')]; subst.
      congruence.
    + split; [lia|]. split.
      * intros Heq. constructor; [eauto | apply Hiff; lia].
      * intros Hf. inversion Hf; subst. apply f_equal, Hiff. assumption.
Qed.

(** Starting from lists of equal length, a tick leaves [activeTimers] and
    [configs] of equal length exactly when none of the timers completes;
    each completion shortens only [activeTimers]. *)
Theorem tick_lockstep_iff (m m' : TimerManager) :
  length (activeTimers m) = length (configs m) ->
  tick m = Some m' ->
  (length (activeTimers m') = length (configs m') <->
   Forall (fun t => exists t' ns, update t = Some (t', false, ns)) (activeTimers m)).
Proof.
  intros Hl Ht. unfold tick in Ht. rewrite tick_loop_retained in Ht by lia.
  rewrite firstn_all, skipn_all in Ht.
  destruct (tick_retained (activeTimers m)) as [r|] eqn:Hr; [|discriminate].
  injection Ht as <-. cbn [activeTimers configs]. rewrite app_nil_r.
  destruct (tick_retained_length _ _ Hr) as [_ Hiff]. rewrite <- Hiff. lia.
Qed.

(** ** The [p], [r] and [d] commands *)

Lemma list_set_list_set {A} (l : list A) (i : nat) (x y : A) :
  list_set (list_set l i x) i y = list_set l i y.
Proof. revert i; induction l as [|z l IH]; intros [|i]; cbn; f_equal; auto. Qed.

Lemma list_set_nth {A} (l : list A) (i : nat) (x : A) :
  nth_error l i = Some x -> list_set l i x = l.
Proof.
  revert i; induction l as [|z l IH]; intros [|i] H; cbn in *; try discriminate.
  - injection H as ->. reflexivity.
  - rewrite (IH i H). reflexivity.
Qed.

(** Pausing a timer twice with the same number gives back the manager
    it started from, whatever the number. *)
Theorem togglePause_involutive (num : Z) (m : TimerManager) :
  togglePause num (togglePause num m) = m.
Proof.
  unfold togglePause at 2.
  destruct ((0 <? num) && (num <=? Z.of_nat (length (activeTimers m)))) eqn:Hr;
    [|unfold togglePause; rewrite Hr; reflexivity].
  destruct (nth_error (activeTimers m) (Z.to_nat (num - 1))) as [t|] eqn:Ht;
    [|unfold togglePause; rewrite Hr; rewrite Ht; reflexivity].
  assert (Hlt : (Z.to_nat (num - 1) < length (activeTimers m))%nat)
    by (apply nth_error_Some; congruence).
  unfold togglePause; cbn [activeTimers configs displayChan].
  rewrite list_set_length, Hr, list_set_same by exact Hlt.
  rewrite list_set_list_set. cbn [isPaused set_isPaused].
  rewrite negb_involutive.
  replace (set_isPaused (isPaused t) (set_isPaused (negb (isPaused t)) t)) with t
    by (destruct t; reflexivity).
  rewrite list_set_nth by exact Ht. destruct m; reflexivity.
Qed.

(** A number that does not name a timer (at most 0, or above the number
    of active timers) makes [p], [r] and [d] leave the manager unchanged;
    neither [r] nor [d] panics then. *)
Theorem commands_out_of_range_noop (num : Z) (m : TimerManager) :
  (num <= 0 \/ Z.of_nat (length (activeTimers m)) < num) ->
  togglePause num m = m /\ reset num m = Some m /\ delete num m = Some m.
Proof.
  intros H.
  assert (Hg : ((0 <? num) && (num <=? Z.of_nat (length (activeTimers m)))) = false).
  { apply andb_false_iff. destruct H; [left | right]; norm_bool; lia. }
  unfold togglePause, reset, delete. rewrite Hg. auto.
Qed.

(** ** Reading the timer number: [fmt.Sscanf(command, "p %d", &num)] *)

Lemma decode_rune_ascii (c : ascii) (r : string) :
  (nat_of_ascii c < 128)%nat ->
  decode_rune (String c r) = Some (Z.of_nat (nat_of_ascii c), 1%nat).
Proof.
  intros H. unfold decode_rune, rune_len.
  replace (Nat.ltb (nat_of_ascii c) 128) with true by (symmetry; apply Nat.ltb_lt; exact H).
  reflexivity.
Qed.

Lemma take_digits_uint (d : uint) (rest : string) :
  take_digits rest = EmptyString ->
  take_digits (NilEmpty.string_of_uint d ++ rest) = NilEmpty.string_of_uint d.
Proof. intros H; induction d; cbn; rewrite ?IHd; auto. Qed.

Lemma take_digits_nilzero (d : uint) (rest : string) :
  take_digits rest = EmptyString ->
  take_digits (NilZero.string_of_uint d ++ rest) = NilZero.string_of_uint d.
Proof.
  intros H. destruct d; try (apply take_digits_uint; exact H).
  cbn. rewrite H. reflexivity.
Qed.

Definition decimal_chars : list ascii := ["0"; "1"; "2"; "3"; "4"; "5"; "6"; "7"; "8"; "9"]%char.

Lemma nilzero_head (d : uint) :
  exists c s', NilZero.string_of_uint d = String c s' /\ In c decimal_chars.
Proof. destruct d; cbn; eexists _, _; split; try reflexivity; cbn; tauto. Qed.

Lemma scan_int_string_of_Z (n : Z) (rest : string) :
  in_int64 n = true -> take_digits rest = EmptyString ->
  scan_int (string_of_Z n ++ rest) = Some n.
Proof.
  intros Hn Hr. rewrite <- (Atoi_string_of_Z n Hn). unfold string_of_Z.
  destruct (n <? 0).
  - cbn [append]. unfold scan_int.
    change (Ascii.eqb "-" (ascii_of_nat 10)) with false.
    change (Ascii.eqb "-" "+" || Ascii.eqb "-" "-")%bool with true. cbv iota beta.
    rewrite take_digits_nilzero by exact Hr.
    destruct (NilZero.string_of_uint _); reflexivity.
  - destruct (nilzero_head (N.to_uint (Z.to_N n))) as (c & s' & Hs & Hc).
    assert (Hd : take_digits (String c (s' ++ rest)) = String c s').
    { rewrite <- Hs. change (String c (s' ++ rest)) with (String c s' ++ rest)%string.
      rewrite <- Hs. apply take_digits_nilzero, Hr. }
    rewrite Hs. cbn [append]. unfold scan_int.
    cbn in Hc. repeat (destruct Hc as [<- | Hc];
                       [cbn -[take_digits Atoi]; rewrite Hd; reflexivity|]).
    contradiction.
Qed.

Lemma string_of_Z_head (n : Z) (rest : string) :
  exists c s', (string_of_Z n ++ rest)%string = String c s' /\
    (c = "-"%char \/ In c decimal_chars).
Proof.
  unfold string_of_Z. destruct (n <? 0).
  - eexists _, _; split; [reflexivity | left; reflexivity].
  - destruct (nilzero_head (N.to_uint (Z.to_N n))) as (c & s' & Hs & Hc).
    rewrite Hs. eexists _, _; split; [reflexivity | right; exact Hc].
Qed.

(** [p], [r] or [d], one space and a decimal int64 number, followed by
    anything that does not start with a digit, gives that number. *)
Theorem command_index_number (letter : ascii) (n : Z) (rest : string) :
  in_int64 n = true ->
  match rest with String c _ => is_digit c = false | EmptyString => True end ->
  command_index letter (String letter (String " " (string_of_Z n ++ rest))) = n.
Proof.
  intros Hn Hrest.
  assert (Htd : take_digits rest = EmptyString)
    by (destruct rest as [|c r]; cbn; [reflexivity | rewrite Hrest; reflexivity]).
  unfold command_index, Sscanf_index. rewrite Ascii.eqb_refl.
  rewrite decode_rune_ascii by (cbn; lia).
  change (fmt_isSpace (Z.of_nat (nat_of_ascii " ")) && negb (Z.of_nat (nat_of_ascii " ") =? 10))%bool
    with true. cbv iota beta.
  assert (Hskip : skip_spaces (String.length (String " " (string_of_Z n ++ rest)))
                    (String " " (string_of_Z n ++ rest)) = (string_of_Z n ++ rest)%string).
  { destruct (string_of_Z_head n rest) as (c & s' & Hx & Hc). rewrite Hx.
    cbn in Hc. destruct Hc as [-> | Hc];
      [reflexivity | repeat (destruct Hc as [<- | Hc]; [reflexivity|]); contradiction]. }
  rewrite Hskip, scan_int_string_of_Z by assumption. reflexivity.
Qed.

(** A command whose letter is directly followed by a character other than
    a space (such as "p2" or "pause 1") reads no number: [num] stays 0 and
    the command is ignored. *)
Theorem command_index_needs_space (letter c : ascii) (r : string) :
  (nat_of_ascii c < 128)%nat -> fmt_isSpace (Z.of_nat (nat_of_ascii c)) = false ->
  command_index letter (String letter (String c r)) = 0.
Proof.
  intros Ha Hs. unfold command_index, Sscanf_index. rewrite Ascii.eqb_refl.
  rewrite decode_rune_ascii by exact Ha. rewrite Hs. reflexivity.
Qed.

(** The command letter is matched in either case, but [Sscanf]'s literal
    is lower case: "P n", "R n" and "D n" never read their number and
    change nothing, while "Q..." quits like "q...". *)
Theorem uppercase_commands (fuel : nat) (r : string) (input : list string)
    (m : TimerManager) :
  handle_command fuel (String "P" r) input m = CNext m input /\
  handle_command fuel (String "R" r) input m = CNext m input /\
  handle_command fuel (String "D" r) input m = CNext m input /\
  handle_command fuel (String "Q" r) input m = CQuit m.
Proof.
  unfold handle_command, command_index, Sscanf_index, togglePause, reset, delete.
  cbn. repeat split; destruct m; reflexivity.
Qed.

(** At the end of standard input [ReadString] keeps returning the empty
    string, which the loop skips: the command loop never terminates. *)
Theorem main_loop_eof_never_quits (fuel : nat) (m : TimerManager) :
  main_loop fuel [] m = LOutOfFuel.
Proof. induction fuel as [|fuel IH]; [reflexivity | exact IH]. Qed.

Lemma handle_command_lockstep (fuel : nat) (command : string) (input rest : list string)
    (m m' : TimerManager) :
  length (activeTimers m) = length (configs m) ->
  (handle_command fuel command input m = CNext m' rest \/
   handle_command fuel command input m = CQuit m') ->
  length (activeTimers m') = length (configs m').
Proof.
  intros Hl H. unfold handle_command in H.
  destruct command as [|c r];
    [destruct H as [H|H]; [injection H; intros; subst; auto | discriminate]|].
  destruct (command_key c) as [k|];
    [|destruct H as [H|H]; [injection H; intros; subst; auto | discriminate]].
  repeat match type of H with
  | context [if ?b then _ else _] => destruct b
  end.
  - destruct (createTimer fuel input) as [[[t cfg] rest']|];
      destruct H as [H|H]; try discriminate; injection H; intros; subst.
    cbn. rewrite !length_app. cbn. lia.
  - destruct H as [H|H]; [|discriminate]. injection H; intros; subst.
    unfold togglePause. destruct (_ && _); [|assumption].
    destruct (nth_error _ _); [|assumption]. cbn. rewrite list_set_length. assumption.
  - unfold reset in H. destruct (_ && _) eqn:Hr.
    + destruct (nth_error _ _); [|destruct H; discriminate].
      destruct (index _ 0); [|destruct H; discriminate].
      destruct H as [H|H]; [|discriminate]. injection H; intros; subst.
      cbn. rewrite list_set_length. assumption.
    + destruct H as [H|H]; [|discriminate]. injection H; intros; subst. assumption.
  - unfold delete in H. destruct (_ && _) eqn:Hr.
    + destruct (Nat.leb _ _); [|destruct H; discriminate].
      destruct H as [H|H]; [|discriminate]. injection H; intros; subst. cbn.
      norm_bool.
      rewrite !remove_at_length by lia. lia.
    + destruct H as [H|H]; [|discriminate]. injection H; intros; subst. assumption.
  - destruct H as [H|H]; [discriminate|]. injection H; intros; subst. assumption.
  - destruct H as [H|H]; [|discriminate]. injection H; intros; subst. assumption.
Qed.

(** The commands alone keep [activeTimers] and [configs] of the same
    length: if they are when the loop starts, they still are when [q]
    ends it. *)
Theorem main_loop_lockstep (fuel : nat) (input : list string) (m m' : TimerManager) :
  length (activeTimers m) = length (configs m) ->
  main_loop fuel input m = LQuit m' ->
  length (activeTimers m') = length (configs m').
Proof.
  revert input m; induction fuel as [|fuel IH]; intros input m Hl H; [discriminate|].
  cbn [main_loop] in H. destruct (readLine input) as [command rest].
  destruct (handle_command fuel command rest m) as [m1|m1 rest1| |] eqn:Hh;
    try discriminate.
  - injection H as <-. apply (handle_command_lockstep fuel command rest [] m m1);
      [exact Hl | right; exact Hh].
  - eapply IH; [|exact H]. eapply handle_command_lockstep; [exact Hl | left; exact Hh].
Qed.

(** ** [createTimer] and the startup of [main] *)

Lemma Atoi_in_int64 (s : string) (v : Z) : Atoi s = Some v -> in_int64 v = true.
Proof.
  unfold Atoi.
  match goal with |- context [let '(_, _) := ?e in _] => destruct e as [sign rest] end.
  destruct (digits_value rest) as [d|]; [|discriminate].
  destruct (in_int64 (sign * d)) eqn:E; [|discriminate]. intros [= <-]. exact E.
Qed.

(** The cycle count a new timer gets is either -1 (unlimited: the answer
    was "u" or not a positive integer) or a positive int64, and the timer
    and the saved config agree on it. *)
Theorem createTimer_maxCycles (fuel : nat) (input rest : list string) (t : Timer)
    (c : TimerConfig) :
  createTimer fuel input = Some (t, c, rest) ->
  maxCycles t = MaxCycles c /\ (MaxCycles c = -1 \/ 0 < MaxCycles c <= int64_max).
Proof.
  unfold createTimer.
  destruct (readLine input) as [nm in1]. destruct (readLine in1) as [nt in2].
  destruct (phase_loop fuel [] in2) as [[ps in3]|]; [|discriminate].
  destruct (readLine in3) as [cycleType in4].
  set (maxc := if String.eqb cycleType "u" then -1 else _).
  destruct (new_timer nm nt ps maxc) as [t0|] eqn:Hn; [|discriminate].
  intros [= <- <- <-].
  destruct (new_timer_spec _ _ _ _ _ Hn) as (ph0 & ps' & -> & ->). cbn.
  split; [reflexivity|]. unfold maxc.
  destruct (String.eqb cycleType "u"); [left; reflexivity|].
  destruct (Atoi cycleType) as [v|] eqn:Ha; [|left; reflexivity].
  destruct (Z.ltb_spec 0 v); [right | left; reflexivity].
  apply Atoi_in_int64 in Ha. unfold in_int64, int64_min, int64_max in *. norm_bool. lia.
Qed.

(** The startup succeeds exactly when every saved config has a phase; it
    then builds one timer per config, in the same order, each Working at
    the start of its first phase with that config's name, text, phases
    and cycle bound. *)
Theorem load_timers_spec (cs : list TimerConfig) :
  ((exists ts, load_timers cs = Some ts) <-> Forall (fun c => Phases c <> []) cs) /\
  (forall ts, load_timers cs = Some ts ->
   Forall2 (fun c t => state t = mkState true (WorkDuration (hd (mkPhase 0 0) (Phases c)))
                               1 0 (Name c) (NotifText c) /\
                       phases t = Phases c /\ maxCycles t = MaxCycles c /\
                       isPaused t = false) cs ts).
Proof.
  induction cs as [|c cs [IH1 IH2]]; cbn [load_timers].
  - split; [split; [constructor | eauto] |]. intros ts [= <-]. constructor.
  - unfold timerFromConfig, new_timer, index.
    destruct (Phases c) as [|ph0 ps] eqn:Hp; cbn.
    + split; [|discriminate]. split; [intros [ts Hts]; discriminate|].
      intros Hf. inversion Hf; subst. congruence.
    + split.
      * split.
        -- intros [ts Hts]. destruct (load_timers cs) as [ts'|]; [|discriminate].
           constructor; [congruence | apply IH1; eauto].
        -- intros Hf. inversion Hf as [|? ? _ Hf']; subst.
           destruct (proj2 IH1 Hf') as [ts' Hts']. rewrite Hts'. eauto.
      * intros ts Hts. destruct (load_timers cs) as [ts'|] eqn:E; [|discriminate].
        injection Hts as <-. constructor; [|apply IH2; reflexivity].
        cbn. rewrite Hp. auto.
Qed.

Lemma decode_config_fields_no_phases (fs : list (string * json)) (c c' : TimerConfig) :
  Forall (fun kv => In (fst kv) ["Name"; "NotifText"; "MaxCycles"]%string \/
                    (fst kv = "Phases"%string /\ (snd kv = JNull \/ snd kv = JArray []))) fs ->
  Phases c = [] -> decode_config_fields fs c = Some c' -> Phases c' = [].
Proof.
  revert c; induction fs as [|[k v] fs IH]; intros c Hf Hc H; cbn in H.
  - injection H as <-. exact Hc.
  - inversion Hf as [|? ? Hkv Hf']; subst. cbn [fst snd] in Hkv.
    destruct Hkv as [Hk | [-> [-> | ->]]].
    + cbn in Hk. destruct Hk as [<- | [<- | [<- | []]]]; cbn in H;
        [destruct (decode_string v (Name c)) | destruct (decode_string v (NotifText c))
        | destruct (decode_int v (MaxCycles c))]; cbn in H; try discriminate;
        (eapply IH; [exact Hf' | | exact H]; cbn; exact Hc).
    + cbn in H. eapply IH; [exact Hf' | | exact H]. reflexivity.
    + cbn in H. eapply IH; [exact Hf' | | exact H]. reflexivity.
Qed.

Lemma load_timers_app_none (cs1 cs2 : list TimerConfig) (c : TimerConfig) :
  Phases c = [] -> load_timers (cs1 ++ c :: cs2) = None.
Proof.
  intros Hc. induction cs1 as [|c1 cs1 IH]; cbn -[timerFromConfig].
  - unfold timerFromConfig, new_timer, index. rewrite Hc. reflexivity.
  - rewrite IH. destruct (timerFromConfig c1); reflexivity.
Qed.

(** A saved entry whose phases are missing, [null] or [[]] loads without
    error as a config with no phases, and then the startup panics on
    [config.Phases[0]], wherever the entry stands in the file. *)
Theorem load_entry_without_phases_panics (fs : list (string * json))
    (cs1 cs2 : list TimerConfig) (c : TimerConfig) :
  Forall (fun kv => In (fst kv) ["Name"; "NotifText"; "MaxCycles"]%string \/
                    (fst kv = "Phases"%string /\ (snd kv = JNull \/ snd kv = JArray []))) fs ->
  decode_config (JObject fs) = Some c ->
  Phases c = [] /\ load_timers (cs1 ++ c :: cs2) = None.
Proof.
  intros Hf Hd. cbn in Hd.
  assert (Hp : Phases c = [])
    by (apply (decode_config_fields_no_phases fs (mkConfig EmptyString EmptyString [] 0));
        [exact Hf | reflexivity | exact Hd]).
  split; [exact Hp | apply load_timers_app_none, Hp].
Qed.

(** ** The strings written to the file *)

Lemma rune_len_prefix (s Y : string) (k : nat) :
  rune_len s = Some k -> rune_len (str_take k s ++ Y) = Some k.
Proof.
  intros H. destruct s as [|b0 r]; [discriminate|].
  destruct r as [|b1 [|b2 [|b3 r]]]; unfold rune_len in H |- *;
  repeat match type of H with
         | context [if ?c then _ else _] => let E := fresh "E" in destruct c eqn:E; simpl in H
         end; try discriminate H; injection H as <-; simpl;
  repeat match goal with
         | |- context [if ?c then _ else _] => let E := fresh "E" in destruct c eqn:E; simpl
         end; try reflexivity; try congruence.
Qed.

Lemma rune_len_le (s : string) (k : nat) : rune_len s = Some k -> (k <= String.length s)%nat.
Proof.
  intros H. destruct s as [|b0 r]; [discriminate|].
  destruct r as [|b1 [|b2 [|b3 r]]]; unfold rune_len in H;
  repeat match type of H with
         | context [if ?c then _ else _] => destruct c; simpl in H
         end; try discriminate H; injection H as <-; cbn; lia.
Qed.

Lemma str_take_length (k : nat) (s : string) :
  (k <= String.length s)%nat -> String.length (str_take k s) = k.
Proof.
  revert s; induction k as [|k IH]; intros [|c r] H; cbn in *; try lia; auto.
  rewrite IH by lia. reflexivity.
Qed.

Lemma str_drop_app (x Y : string) (k : nat) :
  String.length x = k -> str_drop k (x ++ Y) = Y.
Proof.
  revert k; induction x as [|c x IH]; intros k H; cbn in H; subst; cbn; auto.
Qed.

Lemma append_length (x y : string) :
  String.length (x ++ y) = (String.length x + String.length y)%nat.
Proof. induction x as [|c x IH]; cbn; auto. Qed.

Lemma utf8_coerce_fuel_valid (g : nat) (s : string) (f : nat) :
  (String.length (utf8_coerce_fuel g s) <= f)%nat ->
  utf8_valid_fuel f (utf8_coerce_fuel g s) = true.
Proof.
  revert s f; induction g as [|g IH]; intros s f Hf.
  - destruct f; reflexivity.
  - destruct s as [|b r]; [destruct f; reflexivity|].
    change (utf8_coerce_fuel (S g) (String b r)) with
      (match rune_len (String b r) with
       | Some k => (str_take k (String b r) ++ utf8_coerce_fuel g (str_drop k (String b r)))%string
       | None => (replacement_char ++ utf8_coerce_fuel g r)%string
       end) in *.
    destruct (rune_len (String b r)) as [k|] eqn:Hk.
    + pose proof (rune_len_pos _ _ Hk) as Hk1. pose proof (rune_len_le _ _ Hk) as Hk2.
      set (rest := utf8_coerce_fuel g (str_drop k (String b r))) in *.
      rewrite append_length, str_take_length in Hf by exact Hk2.
      destruct f as [|f]; [lia|].
      destruct k as [|k]; [lia|].
      change (str_take (S k) (String b r)) with (String b (str_take k r)) in *.
      change ((String b (str_take k r) ++ rest)%string) with (String b (str_take k r ++ rest)).
      cbn [utf8_valid_fuel].
      change (String b (str_take k r ++ rest)) with (str_take (S k) (String b r) ++ rest)%string.
      rewrite (rune_len_prefix _ _ _ Hk).
      rewrite str_drop_app by (apply str_take_length; exact Hk2).
      apply IH. unfold rest in Hf. lia.
    + destruct f as [|f]; [reflexivity|].
      set (rest := utf8_coerce_fuel g r) in *.
      change (String.length (replacement_char ++ rest)) with (S (S (S (String.length rest)))) in Hf.
      change (utf8_valid_fuel (S f) (replacement_char ++ rest))
        with (utf8_valid_fuel f rest).
      apply IH. unfold rest in Hf. lia.
Qed.

(** Each string [saveTimerConfigs] writes is valid UTF-8, so the coercion
    does nothing the second time: loading a saved file and saving what was
    loaded writes the same file again. *)
Theorem save_load_save_stable (cs cs' : list TimerConfig) :
  Forall config_wf cs ->
  loadTimerConfigs (saveTimerConfigs cs) = Some cs' ->
  saveTimerConfigs cs' = saveTimerConfigs cs.
Proof.
  intros Hwf Hl.
  assert (Hrt : loadTimerConfigs (saveTimerConfigs cs) = Some (map coerce_config cs)).
  { unfold loadTimerConfigs, saveTimerConfigs. apply mapM_map.
    eapply Forall_impl; [|exact Hwf]. apply config_roundtrip. }
  rewrite Hrt in Hl. injection Hl as <-.
  assert (Hidem : forall s, utf8_coerce (utf8_coerce s) = utf8_coerce s).
  { intros s. apply utf8_coerce_valid. unfold utf8_valid, utf8_coerce.
    apply utf8_coerce_fuel_valid. lia. }
  unfold saveTimerConfigs. rewrite map_map. f_equal. apply map_ext. intros c.
  unfold encode_config, coerce_config, encode_string. cbn [Name NotifText Phases MaxCycles].
  rewrite !Hidem. reflexivity.
Qed.

(** ** Witnesses of the further properties *)

Lemma update_unlimited_never_completes_witness :
  exists t' c ns,
    update (mkTimer (mkState false 0 5 0 "a" "n") [mkPhase Second Second] (-1) false) =
      Some (t', c, ns) /\ c = false.
Proof.
  do 3 eexists. split; [reflexivity|].
  eapply (update_unlimited_never_completes
            (mkTimer (mkState false 0 5 0 "a" "n") [mkPhase Second Second] (-1) false));
    reflexivity.
Defined.

Lemma update_cycles_bounded_witness :
  exists t' ns,
    update (mkTimer (mkState false 0 1 0 "a" "n") [mkPhase Second Second] 3 false) =
      Some (t', false, ns) /\ maxCycles t' = 3 /\ 1 <= cycles (state t') <= maxCycles t'.
Proof.
  do 2 eexists. split; [reflexivity|].
  eapply (update_cycles_bounded
           (mkTimer (mkState false 0 1 0 "a" "n") [mkPhase Second Second] 3 false));
    [cbn; unfold int64_max; lia | cbn; lia | reflexivity].
Defined.

Lemma update_secs_ok_witness :
  exists t' c ns,
    update (mkTimer (mkState true (2 * Second) 1 0 "a" "n") [mkPhase (2 * Second) Second]
              (-1) false) = Some (t', c, ns) /\ secs_ok (currentTime (state t')).
Proof.
  do 3 eexists. split; [reflexivity|].
  eapply (update_secs_ok
            (mkTimer (mkState true (2 * Second) 1 0 "a" "n") [mkPhase (2 * Second) Second]
               (-1) false)).
  - repeat constructor; unfold secs_ok, Second, int64_max; cbn; lia.
  - unfold secs_ok, Second, int64_max; cbn; lia.
  - reflexivity.
Defined.

Lemma update_notifications_witness :
  exists t' c ns,
    update (mkTimer (mkState true 0 1 0 "a" "n") [mkPhase Second Second] (-1) false) =
      Some (t', c, ns) /\ ns = [("a", "Break: n")]%string.
Proof.
  do 3 eexists. split; [reflexivity|].
  apply (proj2 (update_notifications
                  (mkTimer (mkState true 0 1 0 "a" "n") [mkPhase Second Second] (-1) false)
                  _ _ _ eq_refl)).
  split; [reflexivity | cbn; lia].
Defined.

Lemma update_completes_iff_witness :
  exists t' ns,
    update (mkTimer (mkState false 0 1 1 "a" "n") [mkPhase Second Second; mkPhase Second Second]
              1 false) = Some (t', true, ns).
Proof.
  apply (proj2 (update_completes_iff
                  (mkTimer (mkState false 0 1 1 "a" "n")
                     [mkPhase Second Second; mkPhase Second Second] 1 false)
                  ltac:(split; cbn; [lia | unfold slice_len_ok, int64_max; cbn; lia]))).
  cbn. repeat split; try reflexivity; try lia; try discriminate.
Defined.

Lemma update_next_phase_witness :
  exists r,
    update (mkTimer (mkState false 0 1 0 "a" "n") [mkPhase Second Second; mkPhase (2 * Second) Second]
              1 false) = Some r.
Proof.
  eexists.
  apply (update_next_phase
           (mkTimer (mkState false 0 1 0 "a" "n")
              [mkPhase Second Second; mkPhase (2 * Second) Second] 1 false)
           (mkPhase (2 * Second) Second)
           ltac:(split; cbn; [lia | unfold slice_len_ok, int64_max; cbn; lia])
           eq_refl ltac:(cbn; lia) eq_refl ltac:(cbn; discriminate)
           ltac:(vm_compute; reflexivity) eq_refl).
Defined.

Lemma tick_lockstep_iff_witness :
  exists m',
    tick (mkManager [example_timer "a" "n" 1] [mkConfig "a" "n" [mkPhase (2 * Second) Second] (-1)] 0)
      = Some m' /\ length (activeTimers m') = length (configs m').
Proof.
  eexists. split; [reflexivity|].
  apply (proj2 (tick_lockstep_iff
                  (mkManager [example_timer "a" "n" 1]
                     [mkConfig "a" "n" [mkPhase (2 * Second) Second] (-1)] 0) _ eq_refl eq_refl)).
  repeat constructor. do 2 eexists. reflexivity.
Defined.

Lemma commands_out_of_range_noop_witness :
  togglePause 2 (mkManager [example_timer "a" "n" 1] [] 0) =
    mkManager [example_timer "a" "n" 1] [] 0 /\
  reset 2 (mkManager [example_timer "a" "n" 1] [] 0) =
    Some (mkManager [example_timer "a" "n" 1] [] 0) /\
  delete 2 (mkManager [example_timer "a" "n" 1] [] 0) =
    Some (mkManager [example_timer "a" "n" 1] [] 0).
Proof.
  apply (commands_out_of_range_noop 2 (mkManager [example_timer "a" "n" 1] [] 0)).
  right. cbn. lia.
Defined.

Lemma command_index_number_witness :
  command_index "p" (String "p" (String " " (string_of_Z 3 ++ " x"))) = 3.
Proof. exact (command_index_number "p" 3 " x" eq_refl eq_refl). Defined.

Lemma command_index_needs_space_witness :
  command_index "p" (String "p" (String "2" EmptyString)) = 0.
Proof. exact (command_index_needs_space "p" "2" EmptyString ltac:(cbn; lia) eq_refl). Defined.

Lemma main_loop_lockstep_witness :
  exists m',
    main_loop 20 ["a"; "w"; "n"; "1"; "1"; "n"; "2"; "p 1"; "q"]%string NewTimerManager =
      LQuit m' /\ length (activeTimers m') = length (configs m').
Proof.
  eexists. split; [vm_compute; reflexivity|].
  apply (main_loop_lockstep 20 ["a"; "w"; "n"; "1"; "1"; "n"; "2"; "p 1"; "q"]%string
           NewTimerManager); [reflexivity | vm_compute; reflexivity].
Defined.

Lemma createTimer_maxCycles_witness :
  exists t c rest,
    createTimer 5 ["a"; "n"; "1"; "0:30"; "n"; "3"]%string = Some (t, c, rest) /\
    maxCycles t = MaxCycles c /\ (MaxCycles c = -1 \/ 0 < MaxCycles c <= int64_max).
Proof.
  do 3 eexists. split; [vm_compute; reflexivity|].
  eapply (createTimer_maxCycles 5 ["a"; "n"; "1"; "0:30"; "n"; "3"]%string).
  vm_compute. reflexivity.
Defined.

Lemma load_timers_spec_witness :
  exists ts, load_timers [mkConfig "a" "n" [mkPhase Second Second] 2] = Some ts.
Proof.
  apply (proj2 (proj1 (load_timers_spec [mkConfig "a" "n" [mkPhase Second Second] 2]))).
  repeat constructor. discriminate.
Defined.

Lemma load_entry_without_phases_panics_witness :
  Phases (mkConfig "a" EmptyString [] 0) = [] /\
  load_timers ([] ++ [mkConfig "a" EmptyString [] 0]) = None.
Proof.
  apply (load_entry_without_phases_panics
           [("Name", JString "a"); ("Phases", JNull)]%string [] [] (mkConfig "a" EmptyString [] 0)).
  - constructor; [left; cbn; tauto|].
    constructor; [right; split; [reflexivity | left; reflexivity] | constructor].
  - reflexivity.
Defined.

Lemma save_load_save_stable_witness :
  exists cs',
    loadTimerConfigs (saveTimerConfigs
      [mkConfig (String (ascii_of_nat 255) EmptyString) "n" [mkPhase Second Second] 2]) = Some cs' /\
    saveTimerConfigs cs' =
      saveTimerConfigs [mkConfig (String (ascii_of_nat 255) EmptyString) "n" [mkPhase Second Second] 2].
Proof.
  eexists. split; [vm_compute; reflexivity|].
  apply (save_load_save_stable
           [mkConfig (String (ascii_of_nat 255) EmptyString) "n" [mkPhase Second Second] 2] _).
  - repeat constructor.
  - vm_compute. reflexivity.
Defined.
